(** * sass-spec: the Jest matchers of [js-api-spec/utils.ts] and the spec runner

    Definitions come first.

    - [JS]: the JavaScript values and promises the code works on.
    - [Utils] embeds [js-api-spec/utils.ts]: the two custom matchers
      [toThrowSassException] and [toEqualWithHash], the helper [verifyThrown],
      and the two stdio capture helpers.
    - [SpecRunner] is the decision policy of [runSpec] (lib-js/spec), whose
      callers are the Jest suite [describe("runSpec", ...)].
    - [SpecPath] is the archive materializer (lib-js/spec-path) used by the
      same suite through [writeToDisk] and [cleanup].
    - [ExceptionChecks] lists the sub-checks of the exception matcher as the
      specification words them, and [Fixtures] holds sample inputs.

    The properties follow, in [UtilsProps], [SpecRunnerProps] and
    [SpecPathProps]. *)

From Stdlib Require Import ZArith Ascii Bool.
From stdpp Require Import gmap strings list fin_maps pretty.

Local Open Scope Z_scope.

(** ** JavaScript values as the code sees them *)

Module JS.

(** The double quote and the line feed, which the template literals of the
    source contain. *)
Definition dq : string := String "034"%char EmptyString.
Definition nl : string := String "010"%char EmptyString.

(** [number]: line numbers and hash codes are integers; the code only tests
    them for truthiness and compares them with [!==]. *)
Definition number := Z.

Definition number_truthy (n : number) : bool := negb (n =? 0).
Definition string_truthy (s : string) : bool := negb (String.eqb s EmptyString).

(** [String(n)] on an integer. *)
Definition number_toString (n : number) : string := pretty n.

(** A WHATWG [URL] object; [toString()] is its [href]. *)
Record URL := { href : string }.

(** [`${v}`] for a possibly undefined value. *)
Definition interp {A} (toS : A -> string) (v : option A) : string :=
  match v with
  | Some a => toS a
  | None => "undefined"
  end.

(** [a !== b] on possibly undefined strings and numbers. *)
Definition string_strict_ne (a b : option string) : bool :=
  match a, b with
  | Some x, Some y => negb (String.eqb x y)
  | None, None => false
  | _, _ => true
  end.

Definition number_strict_ne (a b : option number) : bool :=
  match a, b with
  | Some x, Some y => negb (x =? y)
  | None, None => false
  | _, _ => true
  end.

(** A promise is observed once it has settled, or never settles. *)
Inductive Promise (A E : Type) :=
| Fulfilled (a : A)
| Rejected (reason : E)
| Pending.
Arguments Fulfilled {A E} a.
Arguments Rejected {A E} reason.
Arguments Pending {A E}.

(** [p.then(onFulfilled, onRejected)] for handlers that do not throw. *)
Definition then_ {A B E} (p : Promise A E)
    (onFulfilled : A -> B) (onRejected : E -> B) : Promise B E :=
  match p with
  | Fulfilled a => Fulfilled (onFulfilled a)
  | Rejected e => Fulfilled (onRejected e)
  | Pending => Pending
  end.

End JS.

(** ** js-api-spec/utils.ts *)

Module Utils.
Import JS.

(** *** Data *)

Record SourceLocation := { loc_line : number }.

(** [sass.SourceSpan]: the code reads [span.url] and [span.start?.line]. *)
Record SourceSpan := {
  span_url : option URL;
  span_start : option SourceLocation
}.

(** [sass.Exception]. The two fields the matcher probes are read with [!],
    so an absent field and an empty string are told apart here. *)
Record Exception := {
  span : SourceSpan;
  sassMessage : option string;
  sassStack : option string;
  exn_toString : string
}.

(** A value of type [unknown] caught by [catch] or delivered by a rejected
    promise, with the text [`${thrown}`] gives. *)
Inductive Thrown :=
| SassException (e : Exception)
| NotSassException (text : string).

Definition thrown_toString (t : Thrown) : string :=
  match t with
  | SassException e => exn_toString e
  | NotSassException s => s
  end.

(** [url?: string | URL]. *)
Inductive UrlOption :=
| UrlString (s : string)
| UrlObject (u : URL).

Definition url_toString (u : UrlOption) : string :=
  match u with
  | UrlString s => s
  | UrlObject u => href u
  end.

(** [interface ToThrowSassExceptionOptions]. *)
Record ToThrowSassExceptionOptions := {
  line : option number;
  url : option UrlOption;
  noUrl : option bool
}.

(** The default [options = {}]. *)
Definition no_options : ToThrowSassExceptionOptions :=
  {| line := None; url := None; noUrl := None |}.

(** [interface SyncExpectationResult]; [message] is the text the thunk
    returns. *)
Record SyncExpectationResult := {
  pass : bool;
  message : string
}.

(** Truthiness of the three options, as [url && ...], [noUrl && ...] and
    [line && ...] test it. *)
Definition url_truthy (u : option UrlOption) : bool :=
  match u with
  | Some (UrlString s) => string_truthy s
  | Some (UrlObject _) => true
  | None => false
  end.

Definition noUrl_truthy (b : option bool) : bool :=
  match b with
  | Some b => b
  | None => false
  end.

Definition line_truthy (n : option number) : bool :=
  match n with
  | Some n => number_truthy n
  | None => false
  end.

Definition field_truthy (f : option string) : bool :=
  match f with
  | Some s => string_truthy s
  | None => false
  end.

Definition start_line (e : Exception) : option number :=
  loc_line <$> span_start (span e).

(** *** verifyThrown *)

Definition verifyThrown (thrown : Thrown)
    (options : ToThrowSassExceptionOptions) : SyncExpectationResult :=
  let line := line options in
  let url := url options in
  let noUrl := noUrl options in
  match thrown with
  | NotSassException _ =>
      {| message := "expected " +:+ thrown_toString thrown +:+
                    " to be a sass.Exception";
         pass := false |}
  | SassException e =>
      if url_truthy url &&
         string_strict_ne (href <$> span_url (span e)) (url_toString <$> url)
      then
        {| message := "expected " +:+ interp url_toString url +:+ ", was " +:+
                      interp href (span_url (span e)) +:+ ":" +:+ nl +:+
                      thrown_toString thrown;
           pass := false |}
      else if noUrl_truthy noUrl && bool_decide (is_Some (span_url (span e)))
      then
        {| message := "expected no URL:" +:+ nl +:+ thrown_toString thrown;
           pass := false |}
      else if line_truthy line && number_strict_ne (start_line e) line
      then
        {| message := "expected to start on line " +:+
                      interp number_toString line +:+ ", was " +:+
                      interp number_toString (start_line e) +:+ ":" +:+ nl +:+
                      thrown_toString thrown;
           pass := false |}
      else if negb (field_truthy (sassMessage e))
      then
        {| message := "expected a sassMessage field:" +:+ nl +:+
                      thrown_toString thrown;
           pass := false |}
      else if negb (field_truthy (sassStack e))
      then
        {| message := "expected a sassStack field:" +:+ nl +:+
                      thrown_toString thrown;
           pass := false |}
      else if url_truthy url
      then
        {| message := "expected not " +:+ interp url_toString url +:+ ":" +:+
                      nl +:+ thrown_toString thrown;
           pass := true |}
      else if noUrl_truthy noUrl
      then
        {| message := "expected a URL:" +:+ nl +:+ thrown_toString thrown;
           pass := true |}
      else if line_truthy line
      then
        {| message := "expected not to start on line " +:+
                      interp number_toString line +:+ ":" +:+ nl +:+
                      thrown_toString thrown;
           pass := true |}
      else
        {| message := "expected not to throw a sass.Exception:" +:+ nl +:+
                      thrown_toString thrown;
           pass := true |}
  end.

(** *** toThrowSassException *)

(** What a call [received()] does. *)
Inductive ReturnValue :=
| NonPromise
| PromiseValue (p : Promise unit Thrown).

Inductive CallOutcome :=
| Returns (v : ReturnValue)
| Throws (t : Thrown).

(** [received: unknown]: a function, with its source text [`${received}`]
    and its behaviour when called with no argument, or anything else. *)
Inductive Received :=
| Function (source : string) (call : CallOutcome)
| NotFunction.

(** The matcher returns a result, a promise of one, or throws an [Error]
    with the given message. *)
Inductive MatcherReturn :=
| Sync (r : SyncExpectationResult)
| Async (p : Promise SyncExpectationResult Thrown)
| ThrowsError (msg : string).

Definition expected_to_throw (source : string) : SyncExpectationResult :=
  {| message := "expected " +:+ source +:+ " to throw"; pass := false |}.

Definition toThrowSassException (received : Received)
    (options : ToThrowSassExceptionOptions) : MatcherReturn :=
  match received with
  | NotFunction => ThrowsError "Received value must be a function"
  | Function source call =>
      match call with
      | Returns (PromiseValue result) =>
          Async (then_ result
                   (fun _ => expected_to_throw source)
                   (fun thrown => verifyThrown thrown options))
      | Throws thrown => Sync (verifyThrown thrown options)
      | Returns NonPromise => Sync (expected_to_throw source)
      end
  end.

(** *** toEqualWithHash *)

(** The reference value, an [immutable.ValueObject]: the matcher calls its
    [hashCode()] and interpolates it in messages. *)
Record ValueObject := {
  vo_hashCode : number;
  vo_toString : string
}.

(** A member of an object as ['name' in o] and [typeof o.name] see it. *)
Inductive Member (A : Type) :=
| Absent
| NotCallable
| Method (f : A).
Arguments Absent {A}.
Arguments NotCallable {A}.
Arguments Method {A} f.

Record JsObject := {
  equals : Member (ValueObject -> bool);
  hashCode : Member (unit -> number);
  obj_toString : string
}.

(** [received: unknown]. *)
Inductive Value :=
| Undefined
| Null
| Boolean (b : bool)
| Number (n : number)
| Str (s : string)
| Func (source : string)
| Object (o : JsObject).

Definition typeof (v : Value) : string :=
  match v with
  | Undefined => "undefined"
  | Null => "object"
  | Boolean _ => "boolean"
  | Number _ => "number"
  | Str _ => "string"
  | Func _ => "function"
  | Object _ => "object"
  end.

(** [received === null]. *)
Definition is_null (v : Value) : bool :=
  match v with
  | Null => true
  | _ => false
  end.

(** The members [equals] and [hashCode] of a received value; a value that is
    not an object is only asked for its type. *)
Definition member_equals (v : Value) : Member (ValueObject -> bool) :=
  match v with
  | Object o => equals o
  | _ => Absent
  end.

Definition member_hashCode (v : Value) : Member (unit -> number) :=
  match v with
  | Object o => hashCode o
  | _ => Absent
  end.

(** [`${received}`]. *)
Definition value_toString (v : Value) : string :=
  match v with
  | Undefined => "undefined"
  | Null => "null"
  | Boolean b => if b then "true" else "false"
  | Number n => number_toString n
  | Str s => s
  | Func source => source
  | Object o => obj_toString o
  end.

Section ToEqualWithHash.

(** Node's [util.inspect]. *)
Variable inspect : Value -> string.

Definition not_an_object (received : Value) : SyncExpectationResult :=
  {| message := "expected " +:+ inspect received +:+ " to be an object";
     pass := false |}.

Definition no_equals_method (received : Value) : SyncExpectationResult :=
  {| message := "expected " +:+ inspect received +:+ " to have an " +:+
                dq +:+ "equals" +:+ dq +:+ " method";
     pass := false |}.

Definition no_hashCode_method (received : Value) : SyncExpectationResult :=
  {| message := "expected " +:+ inspect received +:+ " to have a " +:+
                dq +:+ "hashCode" +:+ dq +:+ " method";
     pass := false |}.

Definition not_equal (received : Value) (actual : ValueObject)
    : SyncExpectationResult :=
  {| message := "expected " +:+ value_toString received +:+
                " to be .equal() to " +:+ vo_toString actual;
     pass := false |}.

Definition hash_differs (received : Value) (actual : ValueObject)
    : SyncExpectationResult :=
  {| message := "expected " +:+ value_toString received +:+
                " to have the same .hashCode() as " +:+ vo_toString actual;
     pass := false |}.

Definition equal_with_hash (received : Value) (actual : ValueObject)
    : SyncExpectationResult :=
  {| message := "expected " +:+ value_toString received +:+
                " not to be .equal() to " +:+ vo_toString actual;
     pass := true |}.

Definition toEqualWithHash (received : Value) (actual : ValueObject)
    : SyncExpectationResult :=
  if negb (String.eqb (typeof received) "object") || is_null received
  then not_an_object received
  else
    match member_equals received with
    | Absent | NotCallable =>
        (* !('equals' in received) || typeof received.equals !== 'function' *)
        no_equals_method received
    | Method receivedValue_equals =>
        match member_hashCode received with
        | Absent | NotCallable => no_hashCode_method received
        | Method receivedValue_hashCode =>
            if negb (receivedValue_equals actual)
            then not_equal received actual
            else if negb (receivedValue_hashCode tt =? vo_hashCode actual)
            then hash_differs received actual
            else equal_with_hash received actual
        end
    end.

End ToEqualWithHash.

(** *** captureStdio and captureStdioAsync *)

(** The value of [process.stdout.write] (or [process.stderr.write]): the
    stream's own method, or a wrapper installed by [interceptStdout] around
    the method it found. The callbacks this file installs are
    [chunk => { v += chunk; return ''; }] for a local variable [v], so a
    wrapper is known by the variable it appends to. *)
Inductive Writer :=
| Original
| Intercepted (variable : nat) (underlying : Writer).

Record Process := {
  stdout_write : Writer;
  stderr_write : Writer;
  variables : list string;
  stdout_sink : string;
  stderr_sink : string
}.

(** [let v = '']. *)
Definition declare (p : Process) : nat * Process :=
  (length (variables p),
   {| stdout_write := stdout_write p; stderr_write := stderr_write p;
      variables := variables p ++ [EmptyString];
      stdout_sink := stdout_sink p; stderr_sink := stderr_sink p |}).

Definition read (v : nat) (p : Process) : string :=
  default EmptyString (variables p !! v).

(** Calling a writer with a chunk: a wrapper runs its callback, which
    appends the chunk to its variable and returns the empty string, and
    passes that empty string on to the writer it wraps. *)
Fixpoint call_writer (w : Writer) (chunk : string)
    (vars : list string) (sink : string) : list string * string :=
  match w with
  | Original => (vars, sink +:+ chunk)
  | Intercepted v underlying =>
      call_writer underlying EmptyString
        (alter (fun s => s +:+ chunk) v vars) sink
  end.

(** What a block can do to the process, as far as capture is concerned. *)
Inductive Effect :=
| WriteStdout (chunk : string)
| WriteStderr (chunk : string)
| SetStdoutWrite (w : Writer)
| SetStderrWrite (w : Writer).

Definition perform (e : Effect) (p : Process) : Process :=
  match e with
  | WriteStdout chunk =>
      let '(vars, sink) :=
        call_writer (stdout_write p) chunk (variables p) (stdout_sink p) in
      {| stdout_write := stdout_write p; stderr_write := stderr_write p;
         variables := vars; stdout_sink := sink;
         stderr_sink := stderr_sink p |}
  | WriteStderr chunk =>
      let '(vars, sink) :=
        call_writer (stderr_write p) chunk (variables p) (stderr_sink p) in
      {| stdout_write := stdout_write p; stderr_write := stderr_write p;
         variables := vars; stdout_sink := stdout_sink p;
         stderr_sink := sink |}
  | SetStdoutWrite w =>
      {| stdout_write := w; stderr_write := stderr_write p;
         variables := variables p; stdout_sink := stdout_sink p;
         stderr_sink := stderr_sink p |}
  | SetStderrWrite w =>
      {| stdout_write := stdout_write p; stderr_write := w;
         variables := variables p; stdout_sink := stdout_sink p;
         stderr_sink := stderr_sink p |}
  end.

(** [block: () => void]: the effects it performs, then a normal return or a
    throw. *)
Record Block := {
  effects : list Effect;
  throws : option Thrown
}.

(** [block: () => Promise<void>]: the effects performed until the call
    throws or the promise it returns settles, if it ever does. *)
Inductive Settlement :=
| ThrowsSynchronously (t : Thrown)
| Fulfills
| Rejects (t : Thrown)
| NeverSettles.

Record AsyncBlock := {
  async_effects : list Effect;
  settlement : Settlement
}.

Definition run_effects (es : list Effect) (p : Process) : Process :=
  foldl (fun p e => perform e p) p es.

(** The function [interceptStdout] returns: it puts back the two methods
    that were in place when the hook was installed. *)
Record Unhook := {
  old_stdout_write : Writer;
  old_stderr_write : Writer
}.

Definition interceptStdout (stdoutIntercept stderrIntercept : nat)
    (p : Process) : Unhook * Process :=
  ({| old_stdout_write := stdout_write p;
      old_stderr_write := stderr_write p |},
   {| stdout_write := Intercepted stdoutIntercept (stdout_write p);
      stderr_write := Intercepted stderrIntercept (stderr_write p);
      variables := variables p; stdout_sink := stdout_sink p;
      stderr_sink := stderr_sink p |}).

Definition unhook (u : Unhook) (p : Process) : Process :=
  {| stdout_write := old_stdout_write u;
     stderr_write := old_stderr_write u;
     variables := variables p; stdout_sink := stdout_sink p;
     stderr_sink := stderr_sink p |}.

Record Captured := { out : string; err : string }.

(** A call either returns a value or throws. *)
Inductive Completion (A : Type) :=
| Normal (a : A)
| Abrupt (t : Thrown).
Arguments Normal {A} a.
Arguments Abrupt {A} t.

Definition captureStdio (block : Block) (p : Process)
    : Completion Captured * Process :=
  let '(out, p) := declare p in
  let '(err, p) := declare p in
  let '(hook, p) := interceptStdout out err p in
  (* try { block(); } *)
  let p := run_effects (effects block) p in
  (* finally { unhook(); } *)
  let p := unhook hook p in
  match throws block with
  | Some t => (Abrupt t, p)
  | None => (Normal {| out := read out p; err := read err p |}, p)
  end.

Definition captureStdioAsync (block : AsyncBlock) (p : Process)
    : Promise Captured Thrown * Process :=
  let '(out, p) := declare p in
  let '(err, p) := declare p in
  let '(hook, p) := interceptStdout out err p in
  (* try { await block(); } *)
  let p := run_effects (async_effects block) p in
  match settlement block with
  | NeverSettles => (Pending, p)
  | ThrowsSynchronously t | Rejects t =>
      (* finally { unhook(); } *)
      let p := unhook hook p in
      (Rejected t, p)
  | Fulfills =>
      let p := unhook hook p in
      (Fulfilled {| out := read out p; err := read err p |}, p)
  end.

End Utils.

(** ** The spec execution engine: [runSpec] *)

Module SpecRunner.

(** The four classifications, the [type] field the suite matches on. They
    live in a name space of their own: [todo] is also a flag of the case
    descriptor. *)
Module Outcome.
Inductive t := pass | fail | skip | todo.
End Outcome.
Abbreviation Outcome := Outcome.t.

(** [RunMode]; the suite selects it with the [todoMode] option: absent,
    ["run"] or ["probe"]. *)
Inductive RunMode := normal | run_todo | probe_todo.

Definition of_todoMode (todoMode : option string) : option RunMode :=
  match todoMode with
  | None => Some normal
  | Some m =>
      if String.eqb m "run" then Some run_todo
      else if String.eqb m "probe" then Some probe_todo
      else None
  end.

Inductive ExpectedKind := output_match | error_match.

(** [CaseDescriptor], section 3 of the specification. *)
Record CaseDescriptor := {
  expected_kind : ExpectedKind;
  expected_artifact : string;
  expected_warnings : option (list string);
  ignore : bool;
  ignoreReason : option string;
  todo : bool;
  warningTodo : bool
}.

(** What one invocation of the process under test yields: the captured
    output, error and warning streams and the exit code, or a crash of the
    invocation itself. *)
Record Capture := {
  stdout : string;
  stderr : string;
  warnings : list string;
  exitCode : Z
}.

Inductive Invocation :=
| Completed (c : Capture)
| Crashed (diagnostic : string).

(** Which sub-check a [fail] names. *)
Inductive Diagnostic :=
| OutputMismatch
| ErrorMismatch
| WarningsMismatch
| ProcessCrashed (diagnostic : string)
| UnexpectedPass.

Inductive RawOutcome :=
| raw_pass
| raw_fail (why : Diagnostic).

(** [ExecutionResult]. *)
Record ExecutionResult := {
  type : Outcome;
  diagnostic : option Diagnostic
}.

(** The engine threads a spy through the run: the log of the argument
    vectors the process under test was invoked with. *)
Definition Spy := list (list string).
Definition Engine (A : Type) := Spy -> A * Spy.

Definition ret {A} (a : A) : Engine A := fun spy => (a, spy).
Definition bind {A B} (m : Engine A) (k : A -> Engine B) : Engine B :=
  fun spy => let '(a, spy') := m spy in k a spy'.

Declare Scope engine_scope.
Delimit Scope engine_scope with engine.
Notation "x <- m ;; k" := (bind m (fun x => k))
  (at level 100, m at next level, right associativity) : engine_scope.

(** The process-invocation capability: arguments in, capture out. *)
Definition ProcessUnderTest := list string -> Invocation.

Definition invoke (process : ProcessUnderTest) (cmdArgs : list string)
    : Engine Invocation :=
  fun spy => (process cmdArgs, spy ++ [cmdArgs]).

Definition invocations (spy : Spy) : nat := length spy.

Section Policy.

(** The declared normalization of output text. *)
Variable normalize : string -> string.

(** Modelled from the spec: step 3 of section 4.3, the primary check of
    [runSpec] (lib-js/spec is the missing part). Output-match compares
    the captured stdout with the expected output after normalization and
    wants a successful exit code; error-match compares the reported error
    with the expected one and wants a failing exit code. *)
Definition primary_matches (d : CaseDescriptor) (c : Capture) : bool :=
  match expected_kind d with
  | output_match =>
      String.eqb (normalize (stdout c)) (normalize (expected_artifact d))
      && (exitCode c =? 0)
  | error_match =>
      String.eqb (stderr c) (expected_artifact d)
      && negb (exitCode c =? 0)
  end.

Definition primary_diagnostic (d : CaseDescriptor) : Diagnostic :=
  match expected_kind d with
  | output_match => OutputMismatch
  | error_match => ErrorMismatch
  end.

(** Modelled from the spec: step 5 of section 4.3 (lib-js/spec is the
    missing part); the warning checks are skipped when [warningTodo] is
    set and the mode is normal. *)
Definition warnings_skipped (d : CaseDescriptor) (mode : RunMode) : bool :=
  warningTodo d &&
  match mode with
  | normal => true
  | _ => false
  end.

(** Modelled from the spec: step 4 of section 4.3 (lib-js/spec is the
    missing part); an expected warning list must equal the emitted
    warnings, element by element and in order. *)
Definition warnings_match (d : CaseDescriptor) (c : Capture) : bool :=
  match expected_warnings d with
  | None => true
  | Some expected => bool_decide (warnings c = expected)
  end.

(** Modelled from the spec: [rawOutcome], steps 3 and 4 of section 4.3
    (lib-js/spec is the missing part). A crash of the invocation is a
    failure carrying the crash as its diagnostic. *)
Definition rawOutcome (d : CaseDescriptor) (mode : RunMode)
    (i : Invocation) : RawOutcome :=
  match i with
  | Crashed diagnostic => raw_fail (ProcessCrashed diagnostic)
  | Completed c =>
      if negb (primary_matches d c) then raw_fail (primary_diagnostic d)
      else if negb (warnings_skipped d mode) && negb (warnings_match d c)
      then raw_fail WarningsMismatch
      else raw_pass
  end.

Definition classify (raw : RawOutcome) : ExecutionResult :=
  match raw with
  | raw_pass => {| type := Outcome.pass; diagnostic := None |}
  | raw_fail why => {| type := Outcome.fail; diagnostic := Some why |}
  end.

(** Modelled from the spec: the todo rows of step 5 of section 4.3, the
    decision function of the design notes (lib-js/spec is the missing
    part). *)
Definition finalOutcome (d : CaseDescriptor) (mode : RunMode)
    (raw : RawOutcome) : ExecutionResult :=
  if todo d then
    match mode with
    | normal => {| type := Outcome.todo; diagnostic := None |}
    | run_todo => classify raw
    | probe_todo =>
        match raw with
        | raw_fail _ => {| type := Outcome.todo; diagnostic := None |}
        | raw_pass => {| type := Outcome.fail; diagnostic := Some UnexpectedPass |}
        end
    end
  else classify raw.

(** Modelled from the spec: [runSpec] of lib-js/spec, the precedence
    order of section 4.3: an ignored case is a skip and the process is
    not invoked; otherwise the process is invoked once and the result is
    classified. *)
Definition runSpec (d : CaseDescriptor) (mode : RunMode)
    (process : ProcessUnderTest) (cmdArgs : list string)
    : Engine ExecutionResult :=
  if ignore d then ret {| type := Outcome.skip; diagnostic := None |}
  else
    (i <- invoke process cmdArgs ;;
     ret (finalOutcome d mode (rawOutcome d mode i)))%engine.

End Policy.

(** The classification of a run. *)
Definition outcome_of (r : ExecutionResult * Spy) : Outcome := type r.1.

End SpecRunner.

(** ** The archive tree materializer: [SpecPath] *)

Module SpecPath.

Abbreviation bytes := (list Byte.byte).

(** A path is its ordered sequence of segments. *)
Abbreviation path := (list string).

(** [ArchiveEntry]: a file with its byte content, or a directory with the
    ordered sequence of its named children. *)
#[warnings="-register-all"] Inductive ArchiveEntry :=
| File (content : bytes)
| Directory (children : list (string * ArchiveEntry)).

(** The invariant of section 3: within one directory, child names are
    unique. *)
Fixpoint unique_names (e : ArchiveEntry) : bool :=
  match e with
  | File _ => true
  | Directory children =>
      bool_decide (NoDup (children.*1)) &&
      (fix all (l : list (string * ArchiveEntry)) : bool :=
         match l with
         | [] => true
         | (_, child) :: l => unique_names child && all l
         end) children
  end.

(** Every file of a subtree, with its path relative to the subtree's root. *)
Fixpoint files (e : ArchiveEntry) : list (path * bytes) :=
  match e with
  | File content => [([], content)]
  | Directory children =>
      (fix all (l : list (string * ArchiveEntry)) : list (path * bytes) :=
         match l with
         | [] => []
         | (name, child) :: l =>
             map (fun '(rel, content) => (name :: rel, content)) (files child)
             ++ all l
         end) children
  end.

Inductive Error :=
| MalformedArchive
| PathNotFound (p : path)
| AlreadyExists (p : path)
| IsADirectory (p : path)
| NoSuchFile (p : path).

Inductive Result (A : Type) :=
| Ok (a : A)
| Err (e : Error).
Arguments Ok {A} a.
Arguments Err {A} e.

Definition bind {A B} (r : Result A) (k : A -> Result B) : Result B :=
  match r with
  | Ok a => k a
  | Err e => Err e
  end.

Declare Scope result_scope.
Delimit Scope result_scope with result.
Notation "x <- r ;; k" := (bind r (fun x => k))
  (at level 100, r at next level, right associativity) : result_scope.

(** Modelled from the spec: [navigate] of section 4.1 (lib-js/spec-path is
    the missing part), on the segments of the slash-separated subpath. *)
Fixpoint navigate (root : ArchiveEntry) (subpath : path)
    : Result ArchiveEntry :=
  match subpath with
  | [] => Ok root
  | segment :: rest =>
      match root with
      | File _ => Err (PathNotFound subpath)
      | Directory children =>
          match list_find (fun c => c.1 = segment) children with
          | Some (_, (_, child)) => navigate child rest
          | None => Err (PathNotFound subpath)
          end
      end
  end.

(** The filesystem: what is at each absolute path. *)
Inductive Node :=
| FileNode (content : bytes)
| DirNode.

Abbreviation Disk := (gmap path Node).

Definition mkdir (p : path) (disk : Disk) : Result Disk :=
  match disk !! p with
  | Some _ => Err (AlreadyExists p)
  | None => Ok (<[p := DirNode]> disk)
  end.

Definition writeFile (p : path) (content : bytes) (disk : Disk)
    : Result Disk :=
  match disk !! p with
  | Some DirNode => Err (IsADirectory p)
  | _ => Ok (<[p := FileNode content]> disk)
  end.

Definition readFile (p : path) (disk : Disk) : Result bytes :=
  match disk !! p with
  | Some (FileNode content) => Ok content
  | Some DirNode => Err (IsADirectory p)
  | None => Err (NoSuchFile p)
  end.

Definition exists_on_disk (p : path) (disk : Disk) : bool :=
  bool_decide (is_Some (disk !! p)).

(** Recursive removal of a path and everything below it. *)
Definition removeTree (p : path) (disk : Disk) : Result Disk :=
  if exists_on_disk p disk
  then Ok (filter (fun kv => ¬ p `prefix_of` kv.1) disk)
  else Err (NoSuchFile p).

(** A location is fresh when nothing is on disk at it or below it. *)
Definition fresh_location (p : path) (disk : Disk) : bool :=
  bool_decide (map_Forall (fun k _ => ¬ p `prefix_of` k) disk).

(** [MaterializedSpec]: the root path on disk and the source subtree. *)
Record MaterializedSpec := {
  root : path;
  source : ArchiveEntry
}.

(** Modelled from the spec: the recursion of [writeToDisk], section 4.1
    (lib-js/spec-path is the missing part): a directory is created and its
    children are written below it in order; a file is written with its
    byte content. *)
Fixpoint materialize (p : path) (e : ArchiveEntry) (disk : Disk)
    : Result Disk :=
  match e with
  | File content => writeFile p content disk
  | Directory children =>
      (disk <- mkdir p disk ;;
       (fix all (l : list (string * ArchiveEntry)) (disk : Disk)
            : Result Disk :=
          match l with
          | [] => Ok disk
          | (name, child) :: l =>
              disk <- materialize (p ++ [name]) child disk ;;
              all l disk
          end) children disk)%result
  end.

(** Modelled from the spec: [writeToDisk] of section 4.1 (lib-js/spec-path
    is the missing part). *)
Definition writeToDisk (entry : ArchiveEntry) (destinationRoot : path)
    (disk : Disk) : Result (MaterializedSpec * Disk) :=
  (disk <- materialize destinationRoot entry disk ;;
   Ok ({| root := destinationRoot; source := entry |}, disk))%result.

(** Modelled from the spec: [cleanup] of section 4.1 (lib-js/spec-path is
    the missing part): the owned subtree is removed recursively, and a
    handle whose location is already gone is left alone. *)
Definition cleanup (spec : MaterializedSpec) (disk : Disk) : Result Disk :=
  if exists_on_disk (root spec) disk
  then removeTree (root spec) disk
  else Ok disk.

(** The recursions over the children of a directory, by name. *)
Fixpoint unique_names_all (l : list (string * ArchiveEntry)) : bool :=
  match l with
  | [] => true
  | (_, child) :: l => unique_names child && unique_names_all l
  end.

Fixpoint files_all (l : list (string * ArchiveEntry)) : list (path * bytes) :=
  match l with
  | [] => []
  | (name, child) :: l =>
      map (fun '(rel, content) => (name :: rel, content)) (files child)
      ++ files_all l
  end.

Definition materialize_all (p : path)
    : list (string * ArchiveEntry) -> Disk -> Result Disk :=
  fix all (l : list (string * ArchiveEntry)) (disk : Disk) : Result Disk :=
    match l with
    | [] => Ok disk
    | (name, child) :: l =>
        (disk <- materialize (p ++ [name]) child disk ;; all l disk)%result
    end.

End SpecPath.

(** ** The sub-checks of the exception matcher, as the specification lists
    them *)

Module ExceptionChecks.
Import JS Utils.

(** The six sub-checks, in the order of the specification. *)
Inductive SubCheck :=
| IsSassException
| UrlEquals
| SpanHasNoUrl
| StartLineEquals
| HasSassMessage
| HasSassStack.

Definition sub_checks : list SubCheck :=
  [IsSassException; UrlEquals; SpanHasNoUrl; StartLineEquals;
   HasSassMessage; HasSassStack].

(** Whether a sub-check holds. An option is given when JavaScript takes it
    for true, and a field is had when it reads as a non-empty string; the
    checks on the span and on the fields are about a [sass.Exception] and
    hold of nothing else. *)
Definition check_holds (thrown : Thrown)
    (options : ToThrowSassExceptionOptions) (c : SubCheck) : bool :=
  match thrown with
  | NotSassException _ => false
  | SassException e =>
      match c with
      | IsSassException => true
      | UrlEquals =>
          if url_truthy (url options)
          then bool_decide (href <$> span_url (span e)
                            = url_toString <$> url options)
          else true
      | SpanHasNoUrl =>
          if noUrl_truthy (noUrl options)
          then bool_decide (span_url (span e) = None)
          else true
      | StartLineEquals =>
          if line_truthy (line options)
          then bool_decide (start_line e = line options)
          else true
      | HasSassMessage => field_truthy (sassMessage e)
      | HasSassStack => field_truthy (sassStack e)
      end
  end.

(** The message that identifies a sub-check that does not hold. *)
Definition diagnostic (thrown : Thrown)
    (options : ToThrowSassExceptionOptions) (c : SubCheck) : string :=
  match c with
  | IsSassException =>
      "expected " +:+ thrown_toString thrown +:+ " to be a sass.Exception"
  | UrlEquals =>
      "expected " +:+ interp url_toString (url options) +:+ ", was " +:+
      interp href
        (match thrown with
         | SassException e => span_url (span e)
         | NotSassException _ => None
         end) +:+
      ":" +:+ nl +:+ thrown_toString thrown
  | SpanHasNoUrl => "expected no URL:" +:+ nl +:+ thrown_toString thrown
  | StartLineEquals =>
      "expected to start on line " +:+
      interp number_toString (line options) +:+ ", was " +:+
      interp number_toString
        (match thrown with
         | SassException e => start_line e
         | NotSassException _ => None
         end) +:+
      ":" +:+ nl +:+ thrown_toString thrown
  | HasSassMessage =>
      "expected a sassMessage field:" +:+ nl +:+ thrown_toString thrown
  | HasSassStack =>
      "expected a sassStack field:" +:+ nl +:+ thrown_toString thrown
  end.

(** The first sub-check, in order, that does not hold. *)
Definition first_failing (thrown : Thrown)
    (options : ToThrowSassExceptionOptions) : option SubCheck :=
  find (fun c => negb (check_holds thrown options c)) sub_checks.

(** An options object with every falsy option left out. *)
Definition omit_falsy (options : ToThrowSassExceptionOptions)
    : ToThrowSassExceptionOptions :=
  {| line := if line_truthy (line options) then line options else None;
     url := if url_truthy (url options) then url options else None;
     noUrl := if noUrl_truthy (noUrl options) then noUrl options else None |}.

End ExceptionChecks.

(** ** Fixtures *)

Module Fixtures.
Import JS Utils SpecRunner SpecPath.

(** A sass.Exception as dart-sass throws it, and one from an
    implementation that leaves the structured fields out. *)
Definition sample_exception : Exception :=
  {| span := {| span_url := Some {| href := "file:///tmp/input.scss" |};
                span_start := Some {| loc_line := 3 |} |};
     sassMessage := Some "Undefined variable.";
     sassStack := Some "input.scss 4:3  root stylesheet";
     exn_toString := "Error: Undefined variable." |}.

Definition bare_exception : Exception :=
  {| span := {| span_url := None; span_start := None |};
     sassMessage := None;
     sassStack := None;
     exn_toString := "Error: boom" |}.

(** [util.inspect] on the values used below. *)
Definition sample_inspect (v : Value) : string :=
  match v with
  | Str s => "'" +:+ s +:+ "'"
  | Func _ => "[Function (anonymous)]"
  | Object _ => "{}"
  | _ => value_toString v
  end.

(** An immutable list and an equal copy of it, a copy whose hash code is
    off, and an object with no [hashCode]. *)
Definition list_12 : ValueObject :=
  {| vo_hashCode := 1091; vo_toString := "List [ 1, 2 ]" |}.

Definition equal_copy : Value :=
  Object {| equals := Method (fun other => vo_hashCode other =? 1091);
            hashCode := Method (fun _ => 1091);
            obj_toString := "List [ 1, 2 ]" |}.

Definition badly_hashed_copy : Value :=
  Object {| equals := Method (fun other => vo_hashCode other =? 1091);
            hashCode := Method (fun _ => 7);
            obj_toString := "List [ 1, 2 ]" |}.

Definition hashless : Value :=
  Object {| equals := Method (fun _ => true);
            hashCode := NotCallable;
            obj_toString := "[object Object]" |}.

(** A block that writes to both streams and then throws, run in a process
    in which an outer hook is already installed on stdout. *)
Definition hooked_process : Process :=
  {| stdout_write := Intercepted 0 Original; stderr_write := Original;
     variables := ["outer:"]; stdout_sink := EmptyString;
     stderr_sink := EmptyString |}.

(** The fixtures of the suite, as their names and the suite describe them:
    a mock compiler that prints a fixed output, and cases under [todo/],
    [warning/] and [ignore]. *)
Definition mock_capture : Capture :=
  {| stdout := "a { b: c; }"; stderr := EmptyString;
     warnings := ["a"; "b"]; exitCode := 0 |}.

Definition mockCompiler : ProcessUnderTest :=
  fun _ => Completed mock_capture.

Definition case_output_pass : CaseDescriptor :=
  {| expected_kind := output_match; expected_artifact := "a { b: c; }";
     expected_warnings := None; ignore := false; ignoreReason := None;
     todo := false; warningTodo := false |}.

Definition case_todo_fail : CaseDescriptor :=
  {| expected_kind := output_match; expected_artifact := "x { y: z; }";
     expected_warnings := None; ignore := false; ignoreReason := None;
     todo := true; warningTodo := false |}.

Definition case_todo_pass : CaseDescriptor :=
  {| expected_kind := output_match; expected_artifact := "a { b: c; }";
     expected_warnings := None; ignore := false; ignoreReason := None;
     todo := true; warningTodo := false |}.

Definition case_ignore : CaseDescriptor :=
  {| expected_kind := output_match; expected_artifact := "a { b: c; }";
     expected_warnings := None; ignore := true;
     ignoreReason := Some "not applicable to sass-mock";
     todo := true; warningTodo := false |}.

Definition case_warning_permuted : CaseDescriptor :=
  {| expected_kind := output_match; expected_artifact := "a { b: c; }";
     expected_warnings := Some ["b"; "a"]; ignore := false;
     ignoreReason := None; todo := false; warningTodo := false |}.

Definition case_warning_todo : CaseDescriptor :=
  {| expected_kind := output_match; expected_artifact := "a { b: c; }";
     expected_warnings := Some ["b"; "a"]; ignore := false;
     ignoreReason := None; todo := false; warningTodo := true |}.

Definition case_warning_todo_ignored : CaseDescriptor :=
  {| expected_kind := output_match; expected_artifact := "a { b: c; }";
     expected_warnings := Some ["b"; "a"]; ignore := true;
     ignoreReason := Some "not applicable to sass-mock"; todo := false;
     warningTodo := true |}.

Definition case_warning_todo_and_todo : CaseDescriptor :=
  {| expected_kind := output_match; expected_artifact := "a { b: c; }";
     expected_warnings := Some ["b"; "a"]; ignore := false;
     ignoreReason := None; todo := true; warningTodo := true |}.

(** A subtree of the suite's archive, and a disk with a file of its own. *)
Definition sample_entry : ArchiveEntry :=
  Directory
    [("input.scss", File [Byte.x61; Byte.x7b; Byte.x7d]);
     ("output.css", File [Byte.x61; Byte.x20; Byte.x7b; Byte.x7d; Byte.x0a]);
     ("nested", Directory [("input.scss", File [])])].

Definition sample_disk : Disk :=
  {[ ["home"; "notes.txt"] := FileNode [Byte.x68; Byte.x69] ]}.

End Fixtures.

(** ** The rest of js-api-spec/utils.ts *)

Module UtilsRest.
Import JS Utils.

(** *** sassImpl *)

Definition tab : ascii := "009"%char.

(** [s.split(separator)] for a separator of one character: the pieces
    between the separators, of which there is always at least one. *)
Fixpoint split (separator : ascii) (s : string) : list string :=
  match s with
  | EmptyString => [EmptyString]
  | String c rest =>
      if Ascii.eqb c separator then EmptyString :: split separator rest
      else
        match split separator rest with
        | piece :: pieces => String c piece :: pieces
        | [] => [String c EmptyString]
        end
  end.

(** [sass.info.split('\t')[0]]; indexing an array gives [undefined] out of
    range. *)
Definition sassImpl (info : string) : option string :=
  split tab info !! 0%nat.

(** Whether a character occurs in a string. *)
Fixpoint occurs (c : ascii) (s : string) : bool :=
  match s with
  | EmptyString => false
  | String c' rest => Ascii.eqb c' c || occurs c rest
  end.

(** *** skipForImpl *)

(** [impl: 'dart-sass' | 'sass-embedded']. *)
Inductive Impl := dart_sass | sass_embedded.

Definition impl_name (impl : Impl) : string :=
  match impl with
  | dart_sass => "dart-sass"
  | sass_embedded => "sass-embedded"
  end.

(** What a block of a Jest file declares when it runs. *)
#[warnings="-register-all"] Inductive Declaration :=
| It (name : string)
| ItSkip (name : string)
| Describe (name : string) (body : list Declaration)
| DescribeSkip (name : string) (body : list Declaration).

(** A test as Jest collects it: the describe blocks around it, its name, and
    whether it is skipped. *)
Record CollectedTest := {
  describe_path : list string;
  test_name : string;
  skipped : bool
}.

(** Running declarations inside the describe blocks [path], in skip mode or
    not: [describe.skip] and [it.skip] skip what they hold, and everything
    inside a skipped block is skipped. *)
Fixpoint collect (path : list string) (skipping : bool) (d : Declaration)
    : list CollectedTest :=
  match d with
  | It name =>
      [{| describe_path := path; test_name := name; skipped := skipping |}]
  | ItSkip name =>
      [{| describe_path := path; test_name := name; skipped := true |}]
  | Describe name body =>
      (fix all (l : list Declaration) : list CollectedTest :=
         match l with
         | [] => []
         | d :: l => collect (path ++ [name]) skipping d ++ all l
         end) body
  | DescribeSkip name body =>
      (fix all (l : list Declaration) : list CollectedTest :=
         match l with
         | [] => []
         | d :: l => collect (path ++ [name]) true d ++ all l
         end) body
  end.

Definition collect_all (path : list string) (skipping : bool)
    : list Declaration -> list CollectedTest :=
  fix all (l : list Declaration) : list CollectedTest :=
    match l with
    | [] => []
    | d :: l => collect path skipping d ++ all l
    end.

(** [skipForImpl(impl, block)], called inside the describe blocks [path];
    [sassImpl] is the constant of the same name. *)
Definition skipForImpl (sassImpl : option string) (impl : Impl)
    (block : list Declaration) (path : list string) (skipping : bool)
    : list CollectedTest :=
  if bool_decide (sassImpl = Some (impl_name impl))
  then collect path skipping
         (DescribeSkip ("[skipped for " +:+ impl_name impl +:+ "]") block)
  else collect_all path skipping block.

(** *** What a block writes *)

(** The text a list of effects writes to stdout and to stderr. *)
Fixpoint stdout_text (es : list Effect) : string :=
  match es with
  | [] => EmptyString
  | WriteStdout chunk :: es => chunk +:+ stdout_text es
  | _ :: es => stdout_text es
  end.

Fixpoint stderr_text (es : list Effect) : string :=
  match es with
  | [] => EmptyString
  | WriteStderr chunk :: es => chunk +:+ stderr_text es
  | _ :: es => stderr_text es
  end.

(** A block that writes but leaves [process.stdout.write] and
    [process.stderr.write] alone. *)
Definition is_write (e : Effect) : bool :=
  match e with
  | WriteStdout _ | WriteStderr _ => true
  | SetStdoutWrite _ | SetStderrWrite _ => false
  end.

Definition only_writes (es : list Effect) : bool := forallb is_write es.

(** The synchronous block that does what an asynchronous one does, when the
    latter comes to an end. *)
Definition settled (block : AsyncBlock) : option Block :=
  match settlement block with
  | Fulfills =>
      Some {| effects := async_effects block; throws := None |}
  | ThrowsSynchronously t | Rejects t =>
      Some {| effects := async_effects block; throws := Some t |}
  | NeverSettles => None
  end.

(** [async] functions turn a return into a fulfilled promise and a throw
    into a rejected one. *)
Definition as_promise {A} (c : Completion A) : Promise A Thrown :=
  match c with
  | Normal a => Fulfilled a
  | Abrupt t => Rejected t
  end.

(** *** Options that ask for less *)

(** [weaker] options ask for nothing the [stronger] ones do not: each option
    is falsy or the same. *)
Definition asks_less (weaker stronger : ToThrowSassExceptionOptions) : Prop :=
  (line_truthy (line weaker) = true -> line weaker = line stronger)
  /\ (url_truthy (url weaker) = true -> url weaker = url stronger)
  /\ (noUrl_truthy (noUrl weaker) = true -> noUrl weaker = noUrl stronger).

(** *** Sample inputs *)

Definition dart_sass_info : string :=
  "dart-sass" +:+ String tab "1.69.5" +:+ String tab "(Sass Compiler)".

Definition sample_block : list Declaration :=
  [It "compiles"; Describe "importers" [It "resolves"; ItSkip "caches"]].

Definition sample_effects : list Effect :=
  [WriteStdout "a"; WriteStderr "warn"; WriteStdout "b"].

End UtilsRest.

(** ** Properties of js-api-spec/utils.ts *)

Module UtilsProps.
Import JS Utils ExceptionChecks Fixtures.

Example verifyThrown_passes :
  verifyThrown (SassException sample_exception)
    {| line := Some 3; url := Some (UrlString "file:///tmp/input.scss");
       noUrl := None |}
  = {| pass := true;
       message := "expected not file:///tmp/input.scss:" +:+ nl +:+
                  "Error: Undefined variable." |}.
Proof. reflexivity. Qed.

(** The URL is looked at before the line and before the fields. *)
Example verifyThrown_url_before_line :
  verifyThrown (SassException bare_exception)
    {| line := Some 7; url := Some (UrlObject {| href := "file:///a.scss" |});
       noUrl := None |}
  = {| pass := false;
       message := "expected file:///a.scss, was undefined:" +:+ nl +:+
                  "Error: boom" |}.
Proof. reflexivity. Qed.

Example verifyThrown_line_before_fields :
  verifyThrown (SassException bare_exception)
    {| line := Some 7; url := None; noUrl := Some true |}
  = {| pass := false;
       message := "expected to start on line 7, was undefined:" +:+ nl +:+
                  "Error: boom" |}.
Proof. reflexivity. Qed.

(** A field that is there but empty reads as absent. *)
Example verifyThrown_empty_sassMessage :
  verifyThrown
    (SassException
       {| span := span sample_exception; sassMessage := Some EmptyString;
          sassStack := sassStack sample_exception;
          exn_toString := "Error" |})
    no_options
  = {| pass := false;
       message := "expected a sassMessage field:" +:+ nl +:+ "Error" |}.
Proof. reflexivity. Qed.

Example captureStdio_returns_text :
  (captureStdio
     {| effects := [WriteStdout "a"; WriteStderr "warn"; WriteStdout "b"];
        throws := None |} hooked_process).1
  = Normal {| out := "ab"; err := "warn" |}.
Proof. reflexivity. Qed.

Example captureStdio_swallows_text :
  let p := (captureStdio
              {| effects := [WriteStdout "a"; WriteStderr "warn"];
                 throws := Some (NotSassException "Error: boom") |}
              hooked_process).2 in
  stdout_write p = Intercepted 0 Original
  /\ stderr_write p = Original
  /\ read 0 p = "outer:"
  /\ stderr_sink p = EmptyString.
Proof. repeat split; reflexivity. Qed.

Example toThrowSassException_sync_return :
  toThrowSassException (Function "() => 1" (Returns NonPromise)) no_options
  = Sync {| pass := false; message := "expected () => 1 to throw" |}.
Proof. reflexivity. Qed.

Example toThrowSassException_rejection :
  toThrowSassException
    (Function "async () => compile()"
       (Returns (PromiseValue (Rejected (SassException sample_exception)))))
    {| line := Some 3; url := None; noUrl := None |}
  = Async (Fulfilled
             {| pass := true;
                message := "expected not to start on line 3:" +:+ nl +:+
                           "Error: Undefined variable." |}).
Proof. reflexivity. Qed.

Example toEqualWithHash_samples :
  toEqualWithHash sample_inspect equal_copy list_12
  = {| pass := true;
       message := "expected List [ 1, 2 ] not to be .equal() to List [ 1, 2 ]" |}
  /\ toEqualWithHash sample_inspect badly_hashed_copy list_12
     = {| pass := false;
          message := "expected List [ 1, 2 ] to have the same .hashCode() as "
                     +:+ "List [ 1, 2 ]" |}
  /\ toEqualWithHash sample_inspect hashless list_12
     = {| pass := false;
          message := "expected {} to have a " +:+ dq +:+ "hashCode" +:+ dq
                     +:+ " method" |}
  /\ toEqualWithHash sample_inspect Null list_12
     = {| pass := false; message := "expected null to be an object" |}
  /\ toEqualWithHash sample_inspect (Func "() => 1") list_12
     = {| pass := false;
          message := "expected [Function (anonymous)] to be an object" |}.
Proof. repeat split; reflexivity. Qed.

Lemma string_strict_ne_decide (a b : option string) :
  string_strict_ne a b = negb (bool_decide (a = b)).
Proof.
  destruct a as [x|], b as [y|]; try done.
  cbn [string_strict_ne].
  destruct (String.eqb_spec x y) as [->|Hne].
  - by rewrite bool_decide_eq_true_2.
  - rewrite bool_decide_eq_false_2; [done | congruence].
Qed.

Lemma number_strict_ne_decide (a b : option number) :
  number_strict_ne a b = negb (bool_decide (a = b)).
Proof.
  destruct a as [x|], b as [y|]; try done.
  cbn [number_strict_ne].
  destruct (Z.eqb_spec x y) as [->|Hne].
  - by rewrite bool_decide_eq_true_2.
  - rewrite bool_decide_eq_false_2; [done | congruence].
Qed.

Lemma is_Some_decide {A} (o : option A) :
  bool_decide (is_Some o) = negb (bool_decide (o = None)).
Proof. by destruct o. Qed.

(** C6. [verifyThrown] evaluates the six sub-checks in the order of the
    specification: its result is the failure, with the message of that
    check, of the first sub-check that does not hold, and it passes exactly
    when every sub-check holds. An option counts as given when it is
    truthy, and a field as present when it reads truthy. *)
Theorem verifyThrown_reports_first_failing_check
    (thrown : Thrown) (options : ToThrowSassExceptionOptions) :
  match first_failing thrown options with
  | Some c =>
      verifyThrown thrown options
      = {| pass := false; message := diagnostic thrown options c |}
  | None => pass (verifyThrown thrown options) = true
  end
  /\ (pass (verifyThrown thrown options) = true <->
      forall c, In c sub_checks -> check_holds thrown options c = true).
Proof.
  assert (Hall : (forall c, In c sub_checks -> check_holds thrown options c = true)
                 <-> forallb (check_holds thrown options) sub_checks = true)
    by (symmetry; apply forallb_forall).
  rewrite Hall. clear Hall.
  unfold first_failing, sub_checks, verifyThrown.
  destruct thrown as [e|text]; [|by split; [|split; intros; discriminate]].
  cbn [find forallb check_holds negb diagnostic thrown_toString].
  rewrite string_strict_ne_decide, number_strict_ne_decide, is_Some_decide.
  destruct (url_truthy (url options)); cbn [andb negb];
    [destruct (bool_decide (href <$> span_url (span e) = _));
       cbn [andb negb]; [|by split; [|split; intros; discriminate]]|];
    (destruct (noUrl_truthy (noUrl options)); cbn [andb negb];
       [destruct (bool_decide (span_url (span e) = None));
          cbn [andb negb]; [|by split; [|split; intros; discriminate]]|]);
    (destruct (line_truthy (line options)); cbn [andb negb];
       [destruct (bool_decide (start_line e = _));
          cbn [andb negb]; [|by split; [|split; intros; discriminate]]|]);
    (destruct (field_truthy (sassMessage e)); cbn [andb negb];
       [|by split; [|split; intros; discriminate]]);
    (destruct (field_truthy (sassStack e)); cbn [andb negb];
       [|by split; [|split; intros; discriminate]]);
    by split; [|split].
Qed.

(** C7. [toThrowSassException] calls the callback. When the call returns a
    value that is not a promise, or a promise that resolves, the result is
    the failure "expected ... to throw" (directly, or as the value of the
    promise the matcher returns); a thrown value or the reason of a
    rejected promise goes to [verifyThrown], and a passing result can only
    come from there. *)
Theorem toThrowSassException_fails_when_callback_returns
    (source : string) (call : CallOutcome)
    (options : ToThrowSassExceptionOptions) :
  pass (expected_to_throw source) = false
  /\ message (expected_to_throw source) = "expected " +:+ source +:+ " to throw"
  /\ match call with
     | Returns NonPromise =>
         toThrowSassException (Function source call) options
         = Sync (expected_to_throw source)
     | Returns (PromiseValue (Fulfilled _)) =>
         toThrowSassException (Function source call) options
         = Async (Fulfilled (expected_to_throw source))
     | Returns (PromiseValue (Rejected thrown)) =>
         toThrowSassException (Function source call) options
         = Async (Fulfilled (verifyThrown thrown options))
     | Returns (PromiseValue Pending) =>
         toThrowSassException (Function source call) options = Async Pending
     | Throws thrown =>
         toThrowSassException (Function source call) options
         = Sync (verifyThrown thrown options)
     end
  /\ forall r,
       (toThrowSassException (Function source call) options = Sync r \/
        toThrowSassException (Function source call) options
        = Async (Fulfilled r)) ->
       pass r = true ->
       exists thrown,
         (call = Throws thrown \/
          call = Returns (PromiseValue (Rejected thrown)))
         /\ r = verifyThrown thrown options.
Proof.
  split; [done|]. split; [done|]. split.
  - by destruct call as [[|[[]|thrown|]]|thrown].
  - intros r Hr Hpass.
    destruct call as [[|[[]|thrown|]]|thrown]; cbn in Hr;
      destruct Hr as [Hr|Hr]; try discriminate Hr;
      injection Hr as <-; try discriminate Hpass; eauto.
Qed.

(** The matcher refuses a received value that is not a function. *)
Lemma toThrowSassException_not_a_function options :
  toThrowSassException NotFunction options
  = ThrowsError "Received value must be a function".
Proof. reflexivity. Qed.

Section ToEqualWithHashProps.

Variable inspect : Value -> string.

Lemma object_iff (received : Value) :
  (typeof received = "object" /\ received <> Null)
  <-> exists o, received = Object o.
Proof.
  split.
  - intros [Hty Hnull]. destruct received; try discriminate Hty; eauto.
    by destruct Hnull.
  - intros [o ->]. by split.
Qed.

Lemma missing_capability_messages_differ (received : Value) :
  message (no_equals_method inspect received)
  <> message (no_hashCode_method inspect received).
Proof.
  cbn [message no_equals_method no_hashCode_method]. intros Heq.
  apply String.app_inj in Heq. apply String.app_inj in Heq.
  discriminate Heq.
Qed.

Lemma mismatch_messages_differ (received : Value) (actual : ValueObject) :
  message (not_equal received actual)
  <> message (hash_differs received actual).
Proof.
  cbn [message not_equal hash_differs]. intros Heq.
  apply String.app_inj in Heq. apply String.app_inj in Heq.
  discriminate Heq.
Qed.

(** C8. [toEqualWithHash] passes exactly when the received value is a
    non-null object with an [equals] method and a [hashCode] method,
    [received.equals(reference)] holds and the two hash codes are equal.
    Each way of failing has its own result: not an object, no [equals]
    method, no [hashCode] method, not equal, different hash codes; the
    messages of the two missing-method failures differ, and so do those
    of the two mismatches. *)
Theorem toEqualWithHash_pass_iff (received : Value) (actual : ValueObject) :
  (pass (toEqualWithHash inspect received actual) = true <->
     typeof received = "object" /\ received <> Null /\
     exists o receivedEquals receivedHashCode,
       received = Object o
       /\ equals o = Method receivedEquals
       /\ hashCode o = Method receivedHashCode
       /\ receivedEquals actual = true
       /\ receivedHashCode tt = vo_hashCode actual)
  /\ match received with
     | Object o =>
         match equals o, hashCode o with
         | Method receivedEquals, Method receivedHashCode =>
             if receivedEquals actual
             then if receivedHashCode tt =? vo_hashCode actual
                  then toEqualWithHash inspect received actual
                       = equal_with_hash received actual
                  else toEqualWithHash inspect received actual
                       = hash_differs received actual
             else toEqualWithHash inspect received actual
                  = not_equal received actual
         | Method _, _ =>
             toEqualWithHash inspect received actual
             = no_hashCode_method inspect received
         | _, _ =>
             toEqualWithHash inspect received actual
             = no_equals_method inspect received
         end
     | _ =>
         toEqualWithHash inspect received actual
         = not_an_object inspect received
     end
  /\ message (no_equals_method inspect received)
     <> message (no_hashCode_method inspect received)
  /\ message (not_equal received actual)
     <> message (hash_differs received actual).
Proof.
  split; [|split; [|split]].
  - split.
    + intros Hpass.
      destruct received as [| | | | | |o]; try discriminate Hpass.
      split; [done|]. split; [done|].
      cbn in Hpass.
      destruct (equals o) as [| |eq] eqn:Heq; try discriminate Hpass.
      destruct (hashCode o) as [| |h] eqn:Hh; try discriminate Hpass.
      destruct (eq actual) eqn:Heqa; try discriminate Hpass.
      destruct (Z.eqb_spec (h tt) (vo_hashCode actual)) as [Hhash|];
        try discriminate Hpass.
      by exists o, eq, h.
    + intros (_ & _ & o & eq & h & -> & Heq & Hh & Heqa & Hhash).
      cbn. rewrite Heq, Hh, Heqa, Hhash.
      by rewrite Z.eqb_refl.
  - destruct received as [| | | | | |o]; try reflexivity.
    cbn.
    destruct (equals o) as [| |eq]; try reflexivity.
    destruct (hashCode o) as [| |h]; try reflexivity.
    destruct (eq actual); [|reflexivity].
    by destruct (h tt =? vo_hashCode actual).
  - apply missing_capability_messages_differ.
  - apply mismatch_messages_differ.
Qed.

End ToEqualWithHashProps.

Lemma omit_falsy_truthy (options : ToThrowSassExceptionOptions) :
  line_truthy (line (omit_falsy options)) = line_truthy (line options)
  /\ url_truthy (url (omit_falsy options)) = url_truthy (url options)
  /\ noUrl_truthy (noUrl (omit_falsy options)) = noUrl_truthy (noUrl options).
Proof.
  unfold omit_falsy; cbn.
  by destruct (line_truthy (line options)) eqn:?,
              (url_truthy (url options)) eqn:?,
              (noUrl_truthy (noUrl options)) eqn:?.
Qed.

Lemma verifyThrown_omit_falsy (thrown : Thrown)
    (options : ToThrowSassExceptionOptions) :
  verifyThrown thrown options = verifyThrown thrown (omit_falsy options).
Proof.
  destruct thrown as [e|text]; [|reflexivity].
  unfold verifyThrown.
  destruct (omit_falsy_truthy options) as (-> & -> & ->).
  unfold omit_falsy; cbn [line url noUrl].
  destruct (url_truthy (url options)) eqn:Hu; cbn [andb];
    destruct (noUrl_truthy (noUrl options)) eqn:Hn; cbn [andb];
    destruct (line_truthy (line options)) eqn:Hl; cbn [andb];
    reflexivity.
Qed.

(** C9. In [verifyThrown] an option is used only when it is truthy. With
    [line = 0] the start line is not compared, and with an empty [url] the
    URL is not compared: the result is that of the call without the
    option, so a sass.Exception whose fields are present passes whatever
    its span. In general an options object gives the result of the same
    object with its falsy options left out. *)
Theorem verifyThrown_falsy_option_is_omitted
    (thrown : Thrown) (options : ToThrowSassExceptionOptions) :
  verifyThrown thrown
    {| line := Some 0; url := url options; noUrl := noUrl options |}
  = verifyThrown thrown
      {| line := None; url := url options; noUrl := noUrl options |}
  /\ verifyThrown thrown
       {| line := line options; url := Some (UrlString EmptyString);
          noUrl := noUrl options |}
     = verifyThrown thrown
         {| line := line options; url := None; noUrl := noUrl options |}
  /\ verifyThrown thrown options = verifyThrown thrown (omit_falsy options)
  /\ (forall received,
        toThrowSassException received options
        = toThrowSassException received (omit_falsy options))
  /\ forall e,
       field_truthy (sassMessage e) = true ->
       field_truthy (sassStack e) = true ->
       pass (verifyThrown (SassException e)
               {| line := Some 0; url := Some (UrlString EmptyString);
                  noUrl := Some false |}) = true.
Proof.
  split; [|split; [|split; [|split]]].
  - rewrite verifyThrown_omit_falsy.
    by rewrite (verifyThrown_omit_falsy _ {| line := None |}).
  - rewrite verifyThrown_omit_falsy.
    by rewrite (verifyThrown_omit_falsy _ {| url := None |}).
  - apply verifyThrown_omit_falsy.
  - intros [source [[|[[]|reason|]]|t]|]; cbn; try reflexivity;
      by rewrite verifyThrown_omit_falsy.
  - intros e Hm Hs. rewrite verifyThrown_omit_falsy.
    unfold verifyThrown. cbn. by rewrite Hm, Hs.
Qed.

(** C10. [captureStdio] takes the hook out before it returns or throws, and
    [captureStdioAsync] before the promise it returns settles. When the
    block throws, or its promise rejects, the same value is thrown to the
    caller (the returned promise rejects with it) and no captured text is
    returned; in each of these cases [process.stdout.write] and
    [process.stderr.write] are what they were before the call, whatever the
    block did to them. A block whose promise never settles leaves the
    returned promise pending: control does not come back to a caller that
    awaits it. *)
Theorem captureStdio_restores_streams
    (block : Block) (asyncBlock : AsyncBlock) (p : Process) :
  (stdout_write (captureStdio block p).2 = stdout_write p
   /\ stderr_write (captureStdio block p).2 = stderr_write p
   /\ match throws block with
      | Some thrown => (captureStdio block p).1 = Abrupt thrown
      | None => exists captured, (captureStdio block p).1 = Normal captured
      end)
  /\ match settlement asyncBlock with
     | ThrowsSynchronously thrown | Rejects thrown =>
         (captureStdioAsync asyncBlock p).1 = Rejected thrown
         /\ stdout_write (captureStdioAsync asyncBlock p).2 = stdout_write p
         /\ stderr_write (captureStdioAsync asyncBlock p).2 = stderr_write p
     | Fulfills =>
         (exists captured,
            (captureStdioAsync asyncBlock p).1 = Fulfilled captured)
         /\ stdout_write (captureStdioAsync asyncBlock p).2 = stdout_write p
         /\ stderr_write (captureStdioAsync asyncBlock p).2 = stderr_write p
     | NeverSettles => (captureStdioAsync asyncBlock p).1 = Pending
     end.
Proof.
  split.
  - unfold captureStdio. cbn.
    destruct (throws block); cbn; eauto.
  - unfold captureStdioAsync. cbn.
    destruct (settlement asyncBlock); cbn; eauto.
Qed.

End UtilsProps.

(** ** Properties of the decision policy of [runSpec] *)

Module SpecRunnerProps.
Import SpecRunner Fixtures.

(** The expectations of the suite on these fixtures. *)
Example suite_output_pass :
  outcome_of (runSpec id case_output_pass normal mockCompiler [] [])
  = Outcome.pass.
Proof. reflexivity. Qed.

Example suite_warning_todo :
  outcome_of (runSpec id case_warning_todo normal mockCompiler [] [])
  = Outcome.pass
  /\ outcome_of (runSpec id case_warning_todo run_todo mockCompiler [] [])
     = Outcome.fail.
Proof. split; reflexivity. Qed.

Example suite_ignore :
  outcome_of (runSpec id case_ignore normal mockCompiler [] [])
  = Outcome.skip.
Proof. reflexivity. Qed.

Example suite_todo :
  outcome_of (runSpec id case_todo_fail normal mockCompiler [] [])
  = Outcome.todo
  /\ outcome_of (runSpec id case_todo_fail run_todo mockCompiler [] [])
     = Outcome.fail
  /\ outcome_of (runSpec id case_todo_fail probe_todo mockCompiler [] [])
     = Outcome.todo
  /\ outcome_of (runSpec id case_todo_pass probe_todo mockCompiler [] [])
     = Outcome.fail.
Proof. repeat split; reflexivity. Qed.

Section Policy.

Variable normalize : string -> string.

Lemma runSpec_not_ignored d mode process cmdArgs spy :
  ignore d = false ->
  runSpec normalize d mode process cmdArgs spy
  = (finalOutcome d mode (rawOutcome normalize d mode (process cmdArgs)),
     spy ++ [cmdArgs]).
Proof. intros Hi. unfold runSpec. by rewrite Hi. Qed.

Lemma rawOutcome_primary_matched d mode c :
  primary_matches normalize d c = true ->
  rawOutcome normalize d mode (Completed c)
  = if negb (warnings_skipped d mode) && negb (warnings_match d c)
    then raw_fail WarningsMismatch
    else raw_pass.
Proof. intros Hp. cbn [rawOutcome]. by rewrite Hp. Qed.

Lemma warnings_match_spec d c expected :
  expected_warnings d = Some expected ->
  warnings_match d c = bool_decide (warnings c = expected).
Proof. intros He. unfold warnings_match. by rewrite He. Qed.

(** C1. For a case with [todo] set and [ignore] not set, the outcome of
    [runSpec] follows from the run mode and the raw outcome: todo in
    normal mode whatever the raw outcome; the raw outcome in run-todo
    mode; in probe-todo mode todo for a raw failure and fail for a raw
    pass. *)
Theorem runSpec_todo_by_mode
    (d : CaseDescriptor) (mode : RunMode) (process : ProcessUnderTest)
    (cmdArgs : list string) (spy : Spy) :
  todo d = true ->
  ignore d = false ->
  outcome_of (runSpec normalize d mode process cmdArgs spy)
  = match mode, rawOutcome normalize d mode (process cmdArgs) with
    | normal, _ => Outcome.todo
    | run_todo, raw_pass => Outcome.pass
    | run_todo, raw_fail _ => Outcome.fail
    | probe_todo, raw_fail _ => Outcome.todo
    | probe_todo, raw_pass => Outcome.fail
    end.
Proof.
  intros Ht Hi. unfold outcome_of.
  rewrite runSpec_not_ignored by done. cbn [fst].
  unfold finalOutcome. rewrite Ht.
  destruct mode; [done| |]; by destruct (rawOutcome _ _ _ _).
Qed.

(** C2. A case with [ignore] set is a skip in every run mode, also when
    [todo] is set, and the process under test is not invoked: the log of
    invocations is left as it was. *)
Theorem runSpec_ignore_is_skip
    (d : CaseDescriptor) (mode : RunMode) (process : ProcessUnderTest)
    (cmdArgs : list string) (spy : Spy) :
  ignore d = true ->
  outcome_of (runSpec normalize d mode process cmdArgs spy) = Outcome.skip
  /\ (runSpec normalize d mode process cmdArgs spy).2 = spy
  /\ invocations (runSpec normalize d mode process cmdArgs spy).2
     = invocations spy.
Proof.
  intros Hi. unfold outcome_of, runSpec. by rewrite Hi.
Qed.

(** C3, amended. For a case with [warningTodo] set and [ignore] not set
    whose primary output matches and whose emitted warnings differ from
    the expected ones: in normal mode the outcome is pass provided
    [todo] is not set, and in run-todo mode it is fail. *)
Theorem runSpec_warningTodo_by_mode
    (d : CaseDescriptor) (c : Capture) (expected : list string)
    (process : ProcessUnderTest) (cmdArgs : list string) (spy : Spy) :
  warningTodo d = true ->
  ignore d = false ->
  process cmdArgs = Completed c ->
  primary_matches normalize d c = true ->
  expected_warnings d = Some expected ->
  warnings c <> expected ->
  (todo d = false ->
   outcome_of (runSpec normalize d normal process cmdArgs spy)
   = Outcome.pass)
  /\ outcome_of (runSpec normalize d run_todo process cmdArgs spy)
     = Outcome.fail.
Proof.
  intros Hw Hi Hc Hp He Hne. unfold outcome_of.
  rewrite !runSpec_not_ignored by done. cbn [fst].
  rewrite Hc, !rawOutcome_primary_matched by done.
  unfold warnings_skipped. rewrite Hw. cbn [andb negb].
  rewrite (warnings_match_spec _ _ _ He), bool_decide_eq_false_2 by done.
  cbn [negb]. unfold finalOutcome. split.
  - by intros ->.
  - by destruct (todo d).
Qed.

(** C4, amended. For a case with an expected warning list, with
    [ignore] not set and with each of [todo] and [warningTodo] either
    not set or lifted by run-todo mode, whose primary output or error
    matches: the outcome is pass when the emitted warnings are the
    expected list, element by element and in order, and fail otherwise,
    with the warnings named as the mismatch; so a missing warning, an
    extraneous one and a reordering each fail. *)
Theorem runSpec_warnings_exact
    (d : CaseDescriptor) (mode : RunMode) (c : Capture)
    (expected : list string)
    (process : ProcessUnderTest) (cmdArgs : list string) (spy : Spy) :
  expected_warnings d = Some expected ->
  ignore d = false ->
  todo d = false \/ mode = run_todo ->
  warningTodo d = false \/ mode = run_todo ->
  process cmdArgs = Completed c ->
  primary_matches normalize d c = true ->
  let result := (runSpec normalize d mode process cmdArgs spy).1 in
  (warnings c = expected -> type result = Outcome.pass)
  /\ (warnings c <> expected ->
      type result = Outcome.fail
      /\ diagnostic result = Some WarningsMismatch)
  /\ (forall before w after,
        expected = before ++ w :: after ->
        warnings c = before ++ after ->
        type result = Outcome.fail)
  /\ (forall before w after,
        warnings c = before ++ w :: after ->
        expected = before ++ after ->
        type result = Outcome.fail)
  /\ (warnings c ≡ₚ expected ->
      warnings c <> expected ->
      type result = Outcome.fail).
Proof.
  intros He Hi Ht Hw Hc Hp result.
  assert (Hres : result
                 = classify (if bool_decide (warnings c = expected)
                             then raw_pass
                             else raw_fail WarningsMismatch)).
  { unfold result. rewrite runSpec_not_ignored by done. cbn [fst].
    rewrite Hc, rawOutcome_primary_matched by done.
    rewrite (warnings_match_spec _ _ _ He).
    assert (warnings_skipped d mode = false) as ->.
    { unfold warnings_skipped.
      destruct Hw as [->| ->]; [done|]. by rewrite andb_false_r. }
    cbn [negb andb]. unfold finalOutcome.
    destruct Ht as [->| ->];
      [|destruct (todo d)]; by destruct (bool_decide _). }
  assert (Hfail : warnings c <> expected ->
                  type result = Outcome.fail
                  /\ diagnostic result = Some WarningsMismatch).
  { intros Hne. rewrite Hres. by rewrite bool_decide_eq_false_2. }
  split; [|split; [done|split; [|split]]].
  - intros Heq. rewrite Hres. by rewrite bool_decide_eq_true_2.
  - intros before w after -> Hact. apply Hfail. rewrite Hact.
    intros Heq. apply (f_equal length) in Heq.
    rewrite !length_app in Heq. cbn in Heq. lia.
  - intros before w after Hact ->. apply Hfail. rewrite Hact.
    intros Heq. apply (f_equal length) in Heq.
    rewrite !length_app in Heq. cbn in Heq. lia.
  - intros _ Hne. by apply Hfail.
Qed.

End Policy.

Lemma runSpec_todo_by_mode_witness :
  todo case_todo_pass = true
  /\ ignore case_todo_pass = false
  /\ outcome_of (runSpec id case_todo_pass probe_todo mockCompiler [] [])
     = Outcome.fail.
Proof.
  split; [reflexivity|]. split; [reflexivity|].
  exact (runSpec_todo_by_mode id case_todo_pass probe_todo mockCompiler
           [] [] eq_refl eq_refl).
Defined.

Lemma runSpec_ignore_is_skip_witness :
  ignore case_ignore = true
  /\ outcome_of (runSpec id case_ignore probe_todo mockCompiler [] [])
     = Outcome.skip
  /\ (runSpec id case_ignore probe_todo mockCompiler [] []).2 = []
  /\ invocations (runSpec id case_ignore probe_todo mockCompiler [] []).2
     = invocations [].
Proof.
  split; [reflexivity|].
  exact (runSpec_ignore_is_skip id case_ignore probe_todo mockCompiler
           [] [] eq_refl).
Defined.

(** A case with both [warningTodo] and [todo] set, matching output and
    reordered warnings is a todo in normal mode, not a pass; with [ignore]
    set it is a skip in both modes. *)
Lemma warningTodo_with_todo_is_todo :
  outcome_of
    (runSpec id case_warning_todo_and_todo normal mockCompiler [] [])
  = Outcome.todo
  /\ outcome_of
       (runSpec id case_warning_todo_ignored normal mockCompiler [] [])
     = Outcome.skip
  /\ outcome_of
       (runSpec id case_warning_todo_ignored run_todo mockCompiler [] [])
     = Outcome.skip
  /\ ~ (forall (d : CaseDescriptor) (c : Capture) (expected : list string)
               (process : ProcessUnderTest) (cmdArgs : list string)
               (spy : Spy),
          warningTodo d = true ->
          process cmdArgs = Completed c ->
          primary_matches id d c = true ->
          expected_warnings d = Some expected ->
          warnings c <> expected ->
          outcome_of (runSpec id d normal process cmdArgs spy) = Outcome.pass
          /\ outcome_of (runSpec id d run_todo process cmdArgs spy)
             = Outcome.fail).
Proof.
  split; [reflexivity|]. split; [reflexivity|]. split; [reflexivity|].
  intros Hall.
  destruct (Hall case_warning_todo_and_todo mock_capture ["b"; "a"]
              mockCompiler [] [] eq_refl eq_refl eq_refl eq_refl)
    as [Hpass _]; [discriminate|].
  discriminate Hpass.
Qed.

Lemma runSpec_warningTodo_by_mode_witness :
  (todo case_warning_todo = false ->
   outcome_of (runSpec id case_warning_todo normal mockCompiler [] [])
   = Outcome.pass)
  /\ outcome_of (runSpec id case_warning_todo run_todo mockCompiler [] [])
     = Outcome.fail.
Proof.
  apply (runSpec_warningTodo_by_mode id case_warning_todo mock_capture
           ["b"; "a"] mockCompiler [] []); try reflexivity.
  discriminate.
Defined.

(** A case with an expected warning list and [warningTodo] set passes in
    normal mode although the emitted warnings are in another order; with
    [todo] set as well it is a todo, and with [ignore] set a skip. *)
Lemma warnings_not_compared_under_warningTodo :
  outcome_of (runSpec id case_warning_todo normal mockCompiler [] [])
  = Outcome.pass
  /\ outcome_of
       (runSpec id case_warning_todo_and_todo probe_todo mockCompiler [] [])
     = Outcome.todo
  /\ outcome_of
       (runSpec id case_warning_todo_ignored run_todo mockCompiler [] [])
     = Outcome.skip
  /\ ~ (forall (d : CaseDescriptor) (mode : RunMode) (c : Capture)
               (expected : list string) (process : ProcessUnderTest)
               (cmdArgs : list string) (spy : Spy),
          expected_warnings d = Some expected ->
          process cmdArgs = Completed c ->
          primary_matches id d c = true ->
          warnings c <> expected ->
          outcome_of (runSpec id d mode process cmdArgs spy) = Outcome.fail).
Proof.
  split; [reflexivity|]. split; [reflexivity|]. split; [reflexivity|].
  intros Hall.
  specialize (Hall case_warning_todo normal mock_capture ["b"; "a"]
                mockCompiler [] [] eq_refl eq_refl eq_refl).
  discriminate Hall. discriminate.
Qed.

Lemma runSpec_warnings_exact_witness :
  let result :=
    (runSpec id case_warning_permuted normal mockCompiler [] []).1 in
  (warnings mock_capture = ["b"; "a"] -> type result = Outcome.pass)
  /\ (warnings mock_capture <> ["b"; "a"] ->
      type result = Outcome.fail
      /\ diagnostic result = Some WarningsMismatch)
  /\ (forall before w after,
        ["b"; "a"] = before ++ w :: after ->
        warnings mock_capture = before ++ after ->
        type result = Outcome.fail)
  /\ (forall before w after,
        warnings mock_capture = before ++ w :: after ->
        ["b"; "a"] = before ++ after ->
        type result = Outcome.fail)
  /\ (warnings mock_capture ≡ₚ ["b"; "a"] ->
      warnings mock_capture <> ["b"; "a"] ->
      type result = Outcome.fail).
Proof.
  apply (runSpec_warnings_exact id case_warning_permuted normal mock_capture
           ["b"; "a"] mockCompiler [] []);
    first [reflexivity | left; reflexivity].
Defined.

End SpecRunnerProps.

(** ** Properties of the archive materializer *)

Module SpecPathProps.
Import SpecPath Fixtures.

Lemma unique_names_Directory children :
  unique_names (Directory children)
  = bool_decide (NoDup (children.*1)) && unique_names_all children.
Proof. reflexivity. Qed.

Lemma files_Directory children :
  files (Directory children) = files_all children.
Proof. reflexivity. Qed.

Lemma materialize_Directory p children disk :
  materialize p (Directory children) disk
  = (disk <- mkdir p disk ;; materialize_all p children disk)%result.
Proof. reflexivity. Qed.

(** Induction on an entry, with the property for every child of a
    directory. *)
Lemma ArchiveEntry_nested_ind (P : ArchiveEntry -> Prop) :
  (forall content, P (File content)) ->
  (forall children,
      Forall (fun c => P c.2) children -> P (Directory children)) ->
  forall e, P e.
Proof.
  intros HFile HDir. fix IH 1. intros [content|children].
  - apply HFile.
  - apply HDir.
    induction children as [|[name child] l IHl]; constructor.
    + apply IH.
    + apply IHl.
Qed.

Lemma prefix_snoc_eq (p k : path) (a b : string) :
  (p ++ [a]) `prefix_of` k -> (p ++ [b]) `prefix_of` k -> a = b.
Proof.
  intros [x ->] [y Hy]. rewrite <- !app_assoc in Hy.
  apply app_inv_head in Hy. by injection Hy.
Qed.

Lemma prefix_snoc_l (p k : path) (a : string) :
  (p ++ [a]) `prefix_of` k -> p `prefix_of` k.
Proof. intros [x ->]. rewrite <- app_assoc. by eexists. Qed.

Lemma not_prefix_snoc_self (p : path) (a : string) :
  ¬ (p ++ [a]) `prefix_of` p.
Proof.
  intros Hp. apply prefix_length in Hp. rewrite length_app in Hp.
  cbn in Hp. lia.
Qed.

(** Writing an entry at [p] leaves every path outside [p] alone. *)
Lemma materialize_frame e :
  forall p disk disk',
    materialize p e disk = Ok disk' ->
    forall k, ¬ p `prefix_of` k -> disk' !! k = disk !! k.
Proof.
  induction e as [content|children IH] using ArchiveEntry_nested_ind;
    intros p disk disk' Hm k Hk.
  - cbn [materialize] in Hm. unfold writeFile in Hm.
    assert (p <> k) by (intros ->; by apply Hk).
    destruct (disk !! p) as [[]|]; try discriminate Hm;
      injection Hm as <-; by rewrite lookup_insert_ne.
  - rewrite materialize_Directory in Hm. unfold mkdir in Hm.
    destruct (disk !! p) eqn:Hp; [discriminate Hm|].
    cbn [bind] in Hm.
    assert (Hstart : <[p := DirNode]> disk !! k = disk !! k).
    { apply lookup_insert_ne. intros ->. by apply Hk. }
    rewrite <- Hstart. clear Hstart Hp.
    revert Hm. generalize (<[p := DirNode]> disk). clear disk.
    induction IH as [|[name child] l Hchild _ IHl]; intros disk Hm.
    + by injection Hm as <-.
    + cbn [materialize_all] in Hm.
      destruct (materialize (p ++ [name]) child disk) as [disk1|] eqn:Hc;
        [|discriminate Hm].
      cbn [bind] in Hm. rewrite (IHl _ Hm).
      apply (Hchild _ _ _ Hc). intros Hpre. apply Hk.
      by eapply prefix_snoc_l.
Qed.

Lemma materialize_all_frame p l :
  forall disk disk',
    materialize_all p l disk = Ok disk' ->
    forall k,
      (forall name, name ∈ l.*1 -> ¬ (p ++ [name]) `prefix_of` k) ->
      disk' !! k = disk !! k.
Proof.
  induction l as [|[name child] l IH]; intros disk disk' Hm k Hk.
  - by injection Hm as <-.
  - cbn [materialize_all] in Hm.
    destruct (materialize (p ++ [name]) child disk) as [disk1|] eqn:Hc;
      [|discriminate Hm].
    cbn [bind] in Hm. rewrite (IH _ _ Hm).
    + apply (materialize_frame _ _ _ _ Hc). apply Hk. cbn. left.
    + intros n Hn. apply Hk. cbn. by right.
Qed.

(** Writing a well-formed entry at a free location succeeds, puts
    something at the location and every file at its place. *)
Lemma materialize_files e :
  forall p disk,
    unique_names e = true ->
    (forall k, p `prefix_of` k -> disk !! k = None) ->
    exists disk',
      materialize p e disk = Ok disk'
      /\ is_Some (disk' !! p)
      /\ forall rel content,
           (rel, content) ∈ files e ->
           disk' !! (p ++ rel) = Some (FileNode content).
Proof.
  induction e as [content|children IH] using ArchiveEntry_nested_ind;
    intros p disk Hu Hfree.
  - cbn [materialize files]. unfold writeFile.
    rewrite (Hfree p) by done.
    eexists. split; [done|]. split.
    + rewrite lookup_insert_eq. by eexists.
    + intros rel c Hin. apply list_elem_of_singleton in Hin.
      injection Hin as -> ->. rewrite app_nil_r. apply lookup_insert_eq.
  - rewrite unique_names_Directory in Hu.
    apply andb_true_iff in Hu as [Hnd Hu].
    apply bool_decide_eq_true in Hnd.
    rewrite materialize_Directory, files_Directory. unfold mkdir.
    rewrite (Hfree p) by done. cbn [bind].
    assert (Hp : is_Some (<[p := DirNode]> disk !! p))
      by (rewrite lookup_insert_eq; by eexists).
    assert (Hfree' : forall name k,
               name ∈ children.*1 -> (p ++ [name]) `prefix_of` k ->
               <[p := DirNode]> disk !! k = None).
    { intros name k _ Hk. rewrite lookup_insert_ne.
      - apply Hfree. by eapply prefix_snoc_l.
      - intros ->. by eapply not_prefix_snoc_self. }
    revert Hp Hfree'. generalize (<[p := DirNode]> disk). clear disk Hfree.
    induction IH as [|[name child] l Hchild _ IHl]; intros disk Hp Hfree.
    + exists disk. split; [done|]. split; [done|].
      intros rel c Hin. by apply elem_of_nil in Hin.
    + cbn [unique_names_all] in Hu.
      apply andb_true_iff in Hu as [Huc Hul].
      cbn in Hnd. apply NoDup_cons in Hnd as [Hname Hnd].
      cbn [materialize_all files_all].
      cbn [snd] in Hchild.
      destruct (Hchild (p ++ [name]) disk Huc) as (disk1 & Hm1 & _ & Hf1).
      { intros k Hk. apply (Hfree name); [cbn; left|done]. }
      rewrite Hm1. cbn [bind].
      destruct (IHl Hnd Hul disk1) as (disk' & Hm' & Hp' & Hf').
      { rewrite (materialize_frame _ _ _ _ Hm1); [done|].
        apply not_prefix_snoc_self. }
      { intros n k Hn Hk.
        rewrite (materialize_frame _ _ _ _ Hm1).
        - apply (Hfree n); [cbn; by right|done].
        - intros Hk'. apply Hname.
          by rewrite (prefix_snoc_eq _ _ _ _ Hk' Hk). }
      exists disk'. split; [done|]. split; [done|].
      intros rel c Hin. apply elem_of_app in Hin as [Hin|Hin].
      * apply list_elem_of_fmap in Hin as ([rel' c'] & Heq & Hin).
        injection Heq as -> ->.
        rewrite (materialize_all_frame _ _ _ _ Hm').
        -- replace (p ++ name :: rel') with ((p ++ [name]) ++ rel')
             by (by rewrite <- app_assoc).
           by apply Hf1.
        -- intros n Hn Hk. apply Hname.
           assert ((p ++ [name]) `prefix_of` (p ++ name :: rel')) as Hk'
             by (exists rel'; by rewrite <- app_assoc).
           by rewrite (prefix_snoc_eq _ _ _ _ Hk' Hk).
      * by apply Hf'.
Qed.

Lemma fresh_location_spec (p : path) (disk : Disk) :
  fresh_location p disk = true
  <-> forall k, p `prefix_of` k -> disk !! k = None.
Proof.
  unfold fresh_location. rewrite bool_decide_eq_true, map_Forall_lookup.
  split.
  - intros Hall k Hk. destruct (disk !! k) eqn:Hlook; [|done].
    by destruct (Hall _ _ Hlook).
  - intros Hfree k x Hlook Hk. rewrite (Hfree k Hk) in Hlook.
    discriminate Hlook.
Qed.

Lemma removeTree_below (p : path) (disk : Disk) (k : path) :
  p `prefix_of` k ->
  filter (fun kv : path * Node => ¬ p `prefix_of` kv.1) disk !! k = None.
Proof.
  intros Hk. apply map_lookup_filter_None. right. intros x _ Hn.
  by apply Hn.
Qed.

Lemma removeTree_outside (p : path) (disk : Disk) (k : path) :
  ¬ p `prefix_of` k ->
  filter (fun kv : path * Node => ¬ p `prefix_of` kv.1) disk !! k
  = disk !! k.
Proof.
  intros Hk. destruct (disk !! k) as [x|] eqn:Hlook.
  - apply map_lookup_filter_Some. by split.
  - apply map_lookup_filter_None. by left.
Qed.

Lemma exists_on_disk_true (p : path) (disk : Disk) :
  is_Some (disk !! p) -> exists_on_disk p disk = true.
Proof. intros Hp. by apply bool_decide_eq_true_2. Qed.

Lemma exists_on_disk_false (p : path) (disk : Disk) :
  disk !! p = None -> exists_on_disk p disk = false.
Proof.
  intros Hp. apply bool_decide_eq_false_2. rewrite Hp.
  by apply is_Some_None.
Qed.

(** C5. Writing a subtree whose directories have unique child names to a
    fresh location succeeds; reading back, from the written disk, every
    file of the subtree gives the bytes of the archive entry; [cleanup]
    then succeeds and leaves nothing at the location or below it (the disk
    is what it was before the write); and a second [cleanup] of the same
    handle succeeds and changes nothing. *)
Theorem writeToDisk_roundtrip_and_cleanup
    (entry : ArchiveEntry) (destinationRoot : path) (disk : Disk) :
  unique_names entry = true ->
  fresh_location destinationRoot disk = true ->
  exists spec written cleaned,
    writeToDisk entry destinationRoot disk = Ok (spec, written)
    /\ root spec = destinationRoot
    /\ source spec = entry
    /\ Forall (fun f => readFile (destinationRoot ++ f.1) written = Ok f.2)
         (files entry)
    /\ cleanup spec written = Ok cleaned
    /\ (forall k, destinationRoot `prefix_of` k -> cleaned !! k = None)
    /\ exists_on_disk destinationRoot cleaned = false
    /\ cleaned = disk
    /\ cleanup spec cleaned = Ok cleaned.
Proof.
  intros Hu Hfresh0.
  pose proof (proj1 (fresh_location_spec _ _) Hfresh0) as Hfresh.
  destruct (materialize_files entry destinationRoot disk Hu Hfresh)
    as (written & Hm & Hroot & Hfiles).
  set (cleaned :=
         filter (fun kv : path * Node => ¬ destinationRoot `prefix_of` kv.1)
           written).
  assert (Hgone : forall k, destinationRoot `prefix_of` k ->
                            cleaned !! k = None)
    by (intros k Hk; by apply removeTree_below).
  assert (Hnone : exists_on_disk destinationRoot cleaned = false)
    by (apply exists_on_disk_false, Hgone; done).
  exists {| root := destinationRoot; source := entry |}, written, cleaned.
  split; [|split; [done|split; [done|split; [|split; [|split; [done|split;
    [done|split]]]]]]].
  - unfold writeToDisk. by rewrite Hm.
  - apply Forall_forall. intros [rel content] Hin. cbn [fst snd].
    unfold readFile. by rewrite (Hfiles _ _ Hin).
  - unfold cleanup, removeTree. cbn [root].
    by rewrite (exists_on_disk_true _ _ Hroot).
  - apply map_eq. intros k.
    destruct (decide (destinationRoot `prefix_of` k)) as [Hk|Hk].
    + by rewrite Hgone, Hfresh.
    + unfold cleaned. rewrite removeTree_outside by done.
      by apply (materialize_frame _ _ _ _ Hm).
  - unfold cleanup. cbn [root]. by rewrite Hnone.
Qed.

Lemma writeToDisk_roundtrip_and_cleanup_witness :
  unique_names sample_entry = true
  /\ fresh_location ["tmp"; "spec"] sample_disk = true
  /\ exists spec written cleaned,
       writeToDisk sample_entry ["tmp"; "spec"] sample_disk
       = Ok (spec, written)
       /\ root spec = ["tmp"; "spec"]
       /\ source spec = sample_entry
       /\ Forall (fun f => readFile (["tmp"; "spec"] ++ f.1) written = Ok f.2)
            (files sample_entry)
       /\ cleanup spec written = Ok cleaned
       /\ (forall k, ["tmp"; "spec"] `prefix_of` k -> cleaned !! k = None)
       /\ exists_on_disk ["tmp"; "spec"] cleaned = false
       /\ cleaned = sample_disk
       /\ cleanup spec cleaned = Ok cleaned.
Proof.
  split; [vm_compute; reflexivity|].
  split; [vm_compute; reflexivity|].
  apply (writeToDisk_roundtrip_and_cleanup sample_entry ["tmp"; "spec"]
           sample_disk); vm_compute; reflexivity.
Defined.

(** The suite materializes the archive once and runs each case at a
    subpath of it. *)
Example navigate_nested :
  navigate sample_entry ["nested"; "input.scss"] = Ok (File [])
  /\ navigate sample_entry ["missing"] = Err (PathNotFound ["missing"]).
Proof. split; reflexivity. Qed.

(** Duplicate child names break the round trip: the second file replaces
    the first on disk. *)
Example duplicate_names_overwrite :
  exists written,
    materialize ["tmp"] (Directory [("a", File [Byte.x01]);
                                    ("a", File [Byte.x02])]) ∅
    = Ok written
    /\ readFile ["tmp"; "a"] written = Ok [Byte.x02].
Proof. eexists. split; vm_compute; reflexivity. Qed.

End SpecPathProps.

(** ** Further properties of js-api-spec/utils.ts *)

Module UtilsRestProps.
Import JS Utils UtilsRest Fixtures.

(** *** Strings *)

Lemma append_empty_r (s : string) : s +:+ EmptyString = s.
Proof.
  induction s as [|c s IH]; [done|].
  change (String c (s +:+ EmptyString) = String c s). by rewrite IH.
Qed.

Lemma append_empty_l (s : string) : EmptyString +:+ s = s.
Proof. reflexivity. Qed.

Lemma append_assoc (a b c : string) : (a +:+ b) +:+ c = a +:+ (b +:+ c).
Proof.
  induction a as [|x a IH]; [done|].
  change (String x ((a +:+ b) +:+ c) = String x (a +:+ (b +:+ c))).
  by rewrite IH.
Qed.

(** *** Capture *)

(** A writer that is handed the empty string changes nothing. *)
Lemma call_writer_empty (w : Writer) :
  forall vars sink, call_writer w EmptyString vars sink = (vars, sink).
Proof.
  induction w as [|v w IH]; intros vars sink; cbn [call_writer].
  - by rewrite append_empty_r.
  - rewrite list_alter_id by apply append_empty_r. apply IH.
Qed.

(** A wrapper keeps the chunk for its variable and hands nothing on. *)
Lemma call_writer_intercepted (v : nat) (w : Writer) chunk vars sink :
  call_writer (Intercepted v w) chunk vars sink
  = (alter (fun s => s +:+ chunk) v vars, sink).
Proof. cbn [call_writer]. apply call_writer_empty. Qed.

Lemma run_effects_cons e es p :
  run_effects (e :: es) p = run_effects es (perform e p).
Proof. reflexivity. Qed.

(** While the hook is in place, a block that only writes fills the two
    variables of the hook and touches nothing else. *)
Lemma run_effects_hooked (es : list Effect) :
  only_writes es = true ->
  forall w1 w2 vars o e sink1 sink2,
    run_effects es
      {| stdout_write := Intercepted (length vars) w1;
         stderr_write := Intercepted (S (length vars)) w2;
         variables := vars ++ [o; e];
         stdout_sink := sink1; stderr_sink := sink2 |}
    = {| stdout_write := Intercepted (length vars) w1;
         stderr_write := Intercepted (S (length vars)) w2;
         variables := vars ++ [o +:+ stdout_text es; e +:+ stderr_text es];
         stdout_sink := sink1; stderr_sink := sink2 |}.
Proof.
  induction es as [|eff es IH]; intros Hw w1 w2 vars o e sink1 sink2.
  - cbn [run_effects foldl stdout_text stderr_text].
    by rewrite !append_empty_r.
  - cbn [only_writes forallb] in Hw. apply andb_true_iff in Hw as [He Hes].
    rewrite run_effects_cons.
    destruct eff as [chunk|chunk|w|w]; try discriminate He;
      cbn [perform stdout_write stderr_write variables stdout_sink
           stderr_sink];
      rewrite call_writer_intercepted.
    + rewrite alter_app_r_alt by lia. rewrite Nat.sub_diag.
      cbn [alter list_alter].
      rewrite (IH Hes). cbn [stdout_text stderr_text].
      by rewrite append_assoc.
    + rewrite alter_app_r_alt by lia.
      replace (S (length vars) - length vars)%nat with 1%nat by lia.
      cbn [alter list_alter].
      rewrite (IH Hes). cbn [stdout_text stderr_text].
      by rewrite append_assoc.
Qed.

Lemma captureStdio_only_writes (block : Block) (p : Process) :
  only_writes (effects block) = true ->
  captureStdio block p
  = (match throws block with
     | Some t => Abrupt t
     | None => Normal {| out := stdout_text (effects block);
                         err := stderr_text (effects block) |}
     end,
     {| stdout_write := stdout_write p; stderr_write := stderr_write p;
        variables := variables p ++ [stdout_text (effects block);
                                     stderr_text (effects block)];
        stdout_sink := stdout_sink p; stderr_sink := stderr_sink p |}).
Proof.
  intros Hw. unfold captureStdio, declare, interceptStdout.
  cbn [stdout_write stderr_write variables stdout_sink stderr_sink].
  rewrite length_app. cbn [length].
  replace (length (variables p) + 1)%nat with (S (length (variables p)))
    by lia.
  rewrite <- app_assoc. cbn [app].
  rewrite (run_effects_hooked _ Hw). rewrite !append_empty_l.
  unfold unhook, read.
  cbn [stdout_write stderr_write variables stdout_sink stderr_sink
       old_stdout_write old_stderr_write].
  assert (Hout : (variables p ++ [stdout_text (effects block);
                                 stderr_text (effects block)])
                 !! length (variables p)
                 = Some (stdout_text (effects block)))
    by apply list_lookup_middle, eq_refl.
  assert (Herr : (variables p ++ [stdout_text (effects block);
                                 stderr_text (effects block)])
                 !! S (length (variables p))
                 = Some (stderr_text (effects block))).
  { rewrite lookup_app_r by lia.
    replace (S (length (variables p)) - length (variables p))%nat
      with 1%nat by lia.
    reflexivity. }
  rewrite Hout, Herr. by destruct (throws block).
Qed.

(** X1. When the block only writes to the two streams, [captureStdio]
    returns exactly what it wrote: [out] is the stdout chunks joined in
    order and [err] the stderr chunks; a block that writes nothing gives two
    empty strings. *)
Theorem captureStdio_returns_what_was_written (block : Block) (p : Process) :
  only_writes (effects block) = true ->
  throws block = None ->
  (captureStdio block p).1
  = Normal {| out := stdout_text (effects block);
              err := stderr_text (effects block) |}.
Proof.
  intros Hw Ht. rewrite (captureStdio_only_writes _ _ Hw). by rewrite Ht.
Qed.

Lemma captureStdio_returns_what_was_written_witness :
  only_writes sample_effects = true
  /\ (captureStdio {| effects := sample_effects; throws := None |}
        hooked_process).1
     = Normal {| out := "ab"; err := "warn" |}.
Proof.
  split; [reflexivity|].
  exact (captureStdio_returns_what_was_written
           {| effects := sample_effects; throws := None |} hooked_process
           eq_refl eq_refl).
Defined.

(** X2. What the block writes while the hook is in place goes nowhere else:
    the text that reached the real streams is unchanged, and so is every
    variable of a hook installed around the call. This holds also when the
    block throws, in which case the text is lost. *)
Theorem captureStdio_swallows_output (block : Block) (p : Process) :
  only_writes (effects block) = true ->
  stdout_sink (captureStdio block p).2 = stdout_sink p
  /\ stderr_sink (captureStdio block p).2 = stderr_sink p
  /\ forall v, (v < length (variables p))%nat ->
               read v (captureStdio block p).2 = read v p.
Proof.
  intros Hw. rewrite (captureStdio_only_writes _ _ Hw). cbn [snd].
  split; [done|]. split; [done|].
  intros v Hv. unfold read. cbn [variables]. by rewrite lookup_app_l.
Qed.

Lemma captureStdio_swallows_output_witness :
  only_writes sample_effects = true
  /\ let block := {| effects := sample_effects;
                     throws := Some (NotSassException "Error: boom") |} in
     stdout_sink (captureStdio block hooked_process).2
     = stdout_sink hooked_process
     /\ stderr_sink (captureStdio block hooked_process).2
        = stderr_sink hooked_process
     /\ forall v, (v < length (variables hooked_process))%nat ->
                  read v (captureStdio block hooked_process).2
                  = read v hooked_process.
Proof.
  split; [reflexivity|].
  exact (captureStdio_swallows_output
           {| effects := sample_effects;
              throws := Some (NotSassException "Error: boom") |}
           hooked_process eq_refl).
Defined.

(** X3. [captureStdioAsync] is [captureStdio] made asynchronous: when the
    block's promise settles (or the call throws), the returned promise
    settles as [captureStdio] would return or throw on the same effects, and
    the process is left in the same state; when it never settles the
    returned promise stays pending. *)
Theorem captureStdioAsync_like_captureStdio
    (block : AsyncBlock) (p : Process) :
  match settled block with
  | Some sync =>
      captureStdioAsync block p
      = (as_promise (captureStdio sync p).1, (captureStdio sync p).2)
  | None => (captureStdioAsync block p).1 = Pending
  end.
Proof.
  unfold settled, captureStdioAsync, captureStdio.
  destruct (settlement block); reflexivity.
Qed.

(** *** verifyThrown *)

(** When [verifyThrown] passes: the value is a sass.Exception, none of the
    three guarded comparisons fires, and both fields read truthy. *)
Lemma verifyThrown_pass (thrown : Thrown)
    (options : ToThrowSassExceptionOptions) :
  pass (verifyThrown thrown options) = true <->
  exists e,
    thrown = SassException e
    /\ url_truthy (url options) &&
       string_strict_ne (href <$> span_url (span e))
         (url_toString <$> url options) = false
    /\ noUrl_truthy (noUrl options) &&
       bool_decide (is_Some (span_url (span e))) = false
    /\ line_truthy (line options) &&
       number_strict_ne (start_line e) (line options) = false
    /\ field_truthy (sassMessage e) = true
    /\ field_truthy (sassStack e) = true.
Proof.
  destruct thrown as [e|text].
  - unfold verifyThrown. split.
    + intros Hpass. exists e. split; [done|].
      destruct (url_truthy (url options) && _); [discriminate Hpass|].
      destruct (noUrl_truthy (noUrl options) && _); [discriminate Hpass|].
      destruct (line_truthy (line options) && _); [discriminate Hpass|].
      destruct (field_truthy (sassMessage e)); [|discriminate Hpass].
      by destruct (field_truthy (sassStack e)).
    + intros (e' & He & Hurl & HnoUrl & Hline & Hm & Hs).
      injection He as <-. cbn zeta.
      rewrite Hurl, HnoUrl, Hline, Hm, Hs. cbn [negb].
      by destruct (url_truthy (url options)),
                  (noUrl_truthy (noUrl options)),
                  (line_truthy (line options)).
  - split; [discriminate|]. by intros (e & He & _).
Qed.

(** X4. An expected [url] and [noUrl: true] cannot both be satisfied: with
    both options truthy [verifyThrown] fails for every thrown value. *)
Theorem verifyThrown_url_and_noUrl_never_pass
    (thrown : Thrown) (options : ToThrowSassExceptionOptions) :
  url_truthy (url options) = true ->
  noUrl_truthy (noUrl options) = true ->
  pass (verifyThrown thrown options) = false.
Proof.
  intros Hu Hn. apply not_true_is_false. intros Hpass.
  apply verifyThrown_pass in Hpass as (e & _ & Hurl & HnoUrl & _).
  rewrite Hu in Hurl. rewrite Hn in HnoUrl. cbn [andb] in Hurl, HnoUrl.
  destruct (span_url (span e)) as [u|]; [discriminate HnoUrl|].
  destruct (url options); [discriminate Hurl|discriminate Hu].
Qed.

Lemma verifyThrown_url_and_noUrl_never_pass_witness :
  pass (verifyThrown (SassException sample_exception)
          {| line := None; url := Some (UrlString "file:///tmp/input.scss");
             noUrl := Some true |}) = false.
Proof.
  exact (verifyThrown_url_and_noUrl_never_pass
           (SassException sample_exception)
           {| line := None; url := Some (UrlString "file:///tmp/input.scss");
              noUrl := Some true |} eq_refl eq_refl).
Defined.

(** X5. Asking for less never turns a pass into a failure: when
    [verifyThrown] passes with some options, it passes with any options in
    which each of [line], [url] and [noUrl] is the same or left out (or
    falsy); in particular it passes with no options. *)
Theorem verifyThrown_pass_with_fewer_options
    (thrown : Thrown) (weaker stronger : ToThrowSassExceptionOptions) :
  asks_less weaker stronger ->
  pass (verifyThrown thrown stronger) = true ->
  pass (verifyThrown thrown weaker) = true
  /\ pass (verifyThrown thrown no_options) = true.
Proof.
  intros (Hl & Hu & Hn) Hpass.
  apply verifyThrown_pass in Hpass as (e & -> & Hurl & HnoUrl & Hline & Hm & Hs).
  split; apply verifyThrown_pass; exists e; (split; [done|]).
  - repeat split; try done.
    + destruct (url_truthy (url weaker)) eqn:Ht; [|done].
      by rewrite <- (Hu eq_refl), Ht in Hurl.
    + destruct (noUrl_truthy (noUrl weaker)) eqn:Ht; [|done].
      by rewrite <- (Hn eq_refl), Ht in HnoUrl.
    + destruct (line_truthy (line weaker)) eqn:Ht; [|done].
      by rewrite <- (Hl eq_refl), Ht in Hline.
  - by repeat split.
Qed.

Lemma verifyThrown_pass_with_fewer_options_witness :
  pass (verifyThrown (SassException sample_exception)
          {| line := None; url := Some (UrlString "file:///tmp/input.scss");
             noUrl := Some false |}) = true
  /\ pass (verifyThrown (SassException sample_exception) no_options) = true.
Proof.
  apply (verifyThrown_pass_with_fewer_options
           (SassException sample_exception)
           {| line := None; url := Some (UrlString "file:///tmp/input.scss");
              noUrl := Some false |}
           {| line := Some 3; url := Some (UrlString "file:///tmp/input.scss");
              noUrl := None |}).
  - split; [discriminate|]. split; [reflexivity|discriminate].
  - reflexivity.
Defined.

(** X6. The expected URL may be given as a string or as a [URL] object: a
    non-empty string and a [URL] whose text it is give the same result,
    message included. *)
Theorem verifyThrown_url_string_or_object
    (thrown : Thrown) (s : string) (l : option number) (n : option bool) :
  s <> EmptyString ->
  verifyThrown thrown {| line := l; url := Some (UrlString s); noUrl := n |}
  = verifyThrown thrown
      {| line := l; url := Some (UrlObject {| href := s |}); noUrl := n |}.
Proof.
  intros Hs. destruct thrown as [e|text]; [|reflexivity].
  unfold verifyThrown. cbn [url line noUrl url_truthy].
  assert (string_truthy s = true) as ->.
  { unfold string_truthy. apply negb_true_iff. by apply String.eqb_neq. }
  reflexivity.
Qed.

Lemma verifyThrown_url_string_or_object_witness :
  verifyThrown (SassException bare_exception)
    {| line := Some 7; url := Some (UrlString "file:///a.scss");
       noUrl := None |}
  = verifyThrown (SassException bare_exception)
      {| line := Some 7; url := Some (UrlObject {| href := "file:///a.scss" |});
         noUrl := None |}.
Proof.
  apply (verifyThrown_url_string_or_object (SassException bare_exception)
           "file:///a.scss" (Some 7) None).
  discriminate.
Defined.

(** *** toThrowSassException *)

(** X7. Given a function, [toThrowSassException] does not throw; it returns
    a promise exactly when the callback returned one, and that promise never
    rejects: a rejection of the callback's promise becomes a fulfilled
    result, and a promise that never settles gives one that never does. *)
Theorem toThrowSassException_never_rejects
    (source : string) (call : CallOutcome)
    (options : ToThrowSassExceptionOptions) :
  match toThrowSassException (Function source call) options with
  | Sync _ => forall p, call <> Returns (PromiseValue p)
  | Async result =>
      (exists p, call = Returns (PromiseValue p)
                 /\ (result = Pending <-> p = Pending))
      /\ forall reason, result <> Rejected reason
  | ThrowsError _ => False
  end.
Proof.
  destruct call as [[|[[]|reason|]]|thrown]; cbn; try done.
  - split; [|done]. eexists. split; [done|]. by split.
  - split; [|done]. eexists. split; [done|]. by split.
  - split; [|done]. eexists. split; [done|]. by split.
Qed.

(** *** sassImpl *)

Lemma split_first (separator : ascii) (s : string) :
  exists first others,
    split separator s = first :: others
    /\ occurs separator first = false
    /\ ((s = first /\ others = [])
        \/ exists rest, s = first +:+ String separator rest).
Proof.
  induction s as [|c s (first & others & Hsplit & Hocc & Hshape)].
  - exists EmptyString, []. repeat split. by left.
  - cbn [split]. destruct (Ascii.eqb_spec c separator) as [->|Hne].
    + exists EmptyString, (split separator s). repeat split.
      right. by exists s.
    + rewrite Hsplit. exists (String c first), others. split; [done|]. split.
      * cbn [occurs]. rewrite Hocc.
        by destruct (Ascii.eqb_spec c separator).
      * destruct Hshape as [[-> ->]|[rest ->]]; [by left|].
        right. by exists rest.
Qed.

Lemma split_without_separator (separator : ascii) (s : string) :
  occurs separator s = false -> split separator s = [s].
Proof.
  induction s as [|c s IH]; [done|]. cbn [occurs split].
  intros Hocc. apply orb_false_iff in Hocc as [Hc Hs].
  rewrite Hc. by rewrite (IH Hs).
Qed.

(** X8. [sassImpl] is always defined: it is the part of [sass.info] before
    the first tab. It holds no tab, [sass.info] is it alone or it followed
    by a tab and the rest, and an info string without a tab is taken
    whole. *)
Theorem sassImpl_is_text_before_first_tab (info : string) :
  (exists impl,
     sassImpl info = Some impl
     /\ occurs tab impl = false
     /\ (info = impl \/ exists rest, info = impl +:+ String tab rest))
  /\ (occurs tab info = false -> sassImpl info = Some info).
Proof.
  unfold sassImpl. split.
  - destruct (split_first tab info) as (first & others & -> & Hocc & Hshape).
    exists first. split; [done|]. split; [done|].
    destruct Hshape as [[-> _]|Hrest]; [by left|by right].
  - intros Hocc. by rewrite split_without_separator.
Qed.

Example sassImpl_dart_sass : sassImpl dart_sass_info = Some "dart-sass".
Proof. reflexivity. Qed.

(** *** skipForImpl *)

Lemma Declaration_nested_ind (P : Declaration -> Prop) :
  (forall name, P (It name)) ->
  (forall name, P (ItSkip name)) ->
  (forall name body, Forall P body -> P (Describe name body)) ->
  (forall name body, Forall P body -> P (DescribeSkip name body)) ->
  forall d, P d.
Proof.
  intros HIt HItSkip HDescribe HDescribeSkip. fix IH 1.
  intros [name|name|name body|name body].
  - apply HIt.
  - apply HItSkip.
  - apply HDescribe. induction body as [|d l IHl]; constructor;
      [apply IH|apply IHl].
  - apply HDescribeSkip. induction body as [|d l IHl]; constructor;
      [apply IH|apply IHl].
Qed.

Lemma collect_Describe path skipping name body :
  collect path skipping (Describe name body)
  = collect_all (path ++ [name]) skipping body.
Proof. reflexivity. Qed.

Lemma collect_DescribeSkip path skipping name body :
  collect path skipping (DescribeSkip name body)
  = collect_all (path ++ [name]) true body.
Proof. reflexivity. Qed.

(** The names of the tests a declaration yields do not depend on where it
    runs. *)
Lemma collect_names (d : Declaration) :
  forall path skipping path' skipping',
    test_name <$> collect path skipping d
    = test_name <$> collect path' skipping' d.
Proof.
  induction d as [name|name|name body IH|name body IH]
    using Declaration_nested_ind; intros path skipping path' skipping';
    try reflexivity.
  - rewrite !collect_Describe.
    generalize (path ++ [name]) (path' ++ [name]). intros q q'.
    induction IH as [|d l Hd _ IHl]; [done|].
    cbn [collect_all]. rewrite !fmap_app. f_equal; [apply Hd|apply IHl].
  - rewrite !collect_DescribeSkip.
    generalize (path ++ [name]) (path' ++ [name]). intros q q'.
    induction IH as [|d l Hd _ IHl]; [done|].
    cbn [collect_all]. rewrite !fmap_app. f_equal; [apply Hd|apply IHl].
Qed.

Lemma collect_all_names (block : list Declaration) :
  forall path skipping path' skipping',
    test_name <$> collect_all path skipping block
    = test_name <$> collect_all path' skipping' block.
Proof.
  induction block as [|d l IH]; intros path skipping path' skipping';
    [done|].
  cbn [collect_all]. rewrite !fmap_app. f_equal.
  - apply collect_names.
  - apply IH.
Qed.

(** In skip mode every test is skipped. *)
Lemma collect_skipping (d : Declaration) :
  forall path, Forall (fun t => skipped t = true) (collect path true d).
Proof.
  induction d as [name|name|name body IH|name body IH]
    using Declaration_nested_ind; intros path.
  - by repeat constructor.
  - by repeat constructor.
  - rewrite collect_Describe. generalize (path ++ [name]). intros q.
    induction IH as [|d l Hd _ IHl]; [constructor|].
    cbn [collect_all]. apply Forall_app. split; [apply Hd|apply IHl].
  - rewrite collect_DescribeSkip. generalize (path ++ [name]). intros q.
    induction IH as [|d l Hd _ IHl]; [constructor|].
    cbn [collect_all]. apply Forall_app. split; [apply Hd|apply IHl].
Qed.

(** Every test a declaration yields lies inside the describe blocks it ran
    in. *)
Lemma collect_inside (d : Declaration) :
  forall path skipping,
    Forall (fun t => path `prefix_of` describe_path t)
      (collect path skipping d).
Proof.
  induction d as [name|name|name body IH|name body IH]
    using Declaration_nested_ind; intros path skipping.
  - by repeat constructor.
  - by repeat constructor.
  - rewrite collect_Describe.
    assert (Hq : path `prefix_of` path ++ [name]) by apply prefix_app_r, reflexivity.
    revert Hq. generalize (path ++ [name]). intros q Hq.
    induction IH as [|d l Hd _ IHl]; [constructor|].
    cbn [collect_all]. apply Forall_app. split; [|apply IHl].
    eapply Forall_impl; [apply Hd|]. intros t Ht. by etrans.
  - rewrite collect_DescribeSkip.
    assert (Hq : path `prefix_of` path ++ [name]) by apply prefix_app_r, reflexivity.
    revert Hq. generalize (path ++ [name]). intros q Hq.
    induction IH as [|d l Hd _ IHl]; [constructor|].
    cbn [collect_all]. apply Forall_app. split; [|apply IHl].
    eapply Forall_impl; [apply Hd|]. intros t Ht. by etrans.
Qed.

Lemma collect_all_skipping (block : list Declaration) (path : list string) :
  Forall (fun t => skipped t = true) (collect_all path true block).
Proof.
  induction block as [|d l IH]; [constructor|].
  cbn [collect_all]. apply Forall_app. split; [apply collect_skipping|done].
Qed.

Lemma collect_all_inside (block : list Declaration) (path : list string)
    (skipping : bool) :
  Forall (fun t => path `prefix_of` describe_path t)
    (collect_all path skipping block).
Proof.
  induction block as [|d l IH]; [constructor|].
  cbn [collect_all]. apply Forall_app. split; [apply collect_inside|done].
Qed.

(** X9. [skipForImpl] loses no test and adds none: the tests collected are
    those of the block, by name and in order, whatever the implementation.
    When [sassImpl] is the named implementation every one of them is
    skipped and lies inside a describe block named after it; otherwise the
    block runs as if it had been called directly. *)
Theorem skipForImpl_keeps_tests
    (sassImpl : option string) (impl : Impl) (block : list Declaration)
    (path : list string) (skipping : bool) :
  test_name <$> skipForImpl sassImpl impl block path skipping
  = test_name <$> collect_all path skipping block
  /\ (sassImpl = Some (impl_name impl) ->
      Forall (fun t =>
                skipped t = true
                /\ (path ++ ["[skipped for " +:+ impl_name impl +:+ "]"])
                   `prefix_of` describe_path t)
        (skipForImpl sassImpl impl block path skipping))
  /\ (sassImpl <> Some (impl_name impl) ->
      skipForImpl sassImpl impl block path skipping
      = collect_all path skipping block).
Proof.
  unfold skipForImpl. split; [|split].
  - case_bool_decide; [|done].
    rewrite collect_DescribeSkip. apply collect_all_names.
  - intros Heq. rewrite bool_decide_eq_true_2 by done.
    rewrite collect_DescribeSkip. apply Forall_and. split.
    + apply collect_all_skipping.
    + apply collect_all_inside.
  - intros Hne. by rewrite bool_decide_eq_false_2.
Qed.

Example skipForImpl_sample :
  skipForImpl (sassImpl dart_sass_info) dart_sass sample_block ["suite"] false
  = [{| describe_path := ["suite"; "[skipped for dart-sass]"];
        test_name := "compiles"; skipped := true |};
     {| describe_path := ["suite"; "[skipped for dart-sass]"; "importers"];
        test_name := "resolves"; skipped := true |};
     {| describe_path := ["suite"; "[skipped for dart-sass]"; "importers"];
        test_name := "caches"; skipped := true |}]
  /\ skipped <$> skipForImpl (sassImpl dart_sass_info) sass_embedded
                   sample_block ["suite"] false
     = [false; false; true].
Proof. split; reflexivity. Qed.

End UtilsRestProps.
